(** * 2048 framework: the agents of [agent.h]

    A shallow embedding of the learning player ([player]), of the random
    environment ([rndenv]) and of the configuration parser of [agent], with
    the properties of their specification.

    Conventions.
    - [int] and [unsigned] values are integers of [Z] with the wrap-around
      written out; [float] is IEEE 754 binary32, computed by the executable
      operations of [SpecFloat] at precision 24.
    - A [std::vector] is a list; an access outside it, a float to int
      conversion outside the range of [int] and a signed overflow have no
      defined behaviour in C++ and are the faults of the monad [result],
      which also carries [std::exit] and uncaught exceptions. *)

From Stdlib Require Import ZArith Lia List Bool Ascii String Permutation.
From Stdlib Require Import Strings.Byte.
From Stdlib Require Import Floats.SpecFloat.
From stdpp Require Import base option list gmap strings.

Local Open Scope Z_scope.

(* ===================================================================== *)
(** ** Faults and the monad of results *)

Inductive error : Type :=
  | OutOfBounds            (* operator[] outside the vector *)
  | BadConversion          (* float to int outside the range of int *)
  | Overflow               (* signed integer overflow *)
  | Uninit                 (* use of an uninitialised variable *)
  | Exit (status : Z)      (* std::exit(status) *)
  | Throw.                 (* an exception nobody catches *)

Inductive result (A : Type) : Type :=
  | Ok (a : A)
  | Err (e : error).

Arguments Ok {A} a.
Arguments Err {A} e.

Definition rbind {A B : Type} (m : result A) (k : A -> result B) : result B :=
  match m with
  | Ok a => k a
  | Err e => Err e
  end.

Notation "'do' x <- m ; k" := (rbind m (fun x => k))
  (at level 10, x name, m at level 100, k at level 200).

Definition of_option {A : Type} (e : error) (o : option A) : result A :=
  match o with
  | Some a => Ok a
  | None => Err e
  end.

Definition is_ok {A : Type} (m : result A) : Prop := exists a, m = Ok a.

(* ===================================================================== *)
(** ** Machine integers *)

Definition INT_MIN : Z := - 2 ^ 31.
Definition INT_MAX : Z := 2 ^ 31 - 1.

Definition in_int (z : Z) : bool := (INT_MIN <=? z) && (z <=? INT_MAX).

(** Arithmetic of [unsigned] (32 bits) wraps. *)
Definition wrap32 (z : Z) : Z := z mod 2 ^ 32.

(** Arithmetic of [size_t] (64 bits) wraps. *)
Definition wrap64 (z : Z) : Z := z mod 2 ^ 64.

(** Conversion of an unsigned value to [int]: two's complement. *)
Definition to_int32 (z : Z) : Z := (z + 2 ^ 31) mod 2 ^ 32 - 2 ^ 31.

Definition umul (a b : Z) : Z := wrap32 (a * b).
Definition uadd (a b : Z) : Z := wrap32 (a + b).

(** [int + int]; an overflow is a fault. *)
Definition int_add (a b : Z) : result Z :=
  if in_int (a + b) then Ok (a + b) else Err Overflow.

(* ===================================================================== *)
(** ** Floats: IEEE 754 binary32 *)

Module F32.

Definition prec : Z := 24.
Definition emax : Z := 128.

Definition float : Type := spec_float.

Definition zero : float := S754_zero false.

Definition add (x y : float) : float := SFadd prec emax x y.
Definition sub (x y : float) : float := SFsub prec emax x y.
Definition mul (x y : float) : float := SFmul prec emax x y.

(** [x > y] and [x == y] of C++. *)
Definition gt (x y : float) : bool := SFltb y x.
Definition eq (x y : float) : bool := SFeqb x y.

(** Conversion of an [int] to [float], rounding to nearest even. *)
Definition of_int (z : Z) : float := binary_normalize prec emax z 0 false.

(** The integer a finite float truncates to (toward zero). *)
Definition trunc (x : float) : option Z :=
  match x with
  | S754_zero _ => Some 0
  | S754_finite s m e =>
      let a := if 0 <=? e then Z.pos m * 2 ^ e else Z.pos m / 2 ^ (- e) in
      Some (if s then - a else a)
  | S754_infinity _ => None
  | S754_nan => None
  end.

(** Conversion of a [float] to [int]: truncation; outside the range of
    [int], and on infinities and NaN, the behaviour is undefined. *)
Definition to_int (x : float) : result Z :=
  match trunc x with
  | Some z => if in_int z then Ok z else Err BadConversion
  | None => Err BadConversion
  end.

End F32.

Abbreviation float := F32.float.

(* ===================================================================== *)
(** ** The board *)

(** Modelled from the spec: [board.h] is not among the sources.  A grid
    state is a fixed array of 16 cells, each an unsigned rank (0 is the empty
    cell, n the tile 2^n), read with [b(i)].  The cell type is taken to be a
    32-bit unsigned, so that the arithmetic of [extract_feature] is
    unsigned. *)
Abbreviation cell := Z.
Abbreviation board := (list cell).

(** [b(i)], for a position [i] on the board. *)
Definition at_pos (b : board) (i : Z) : cell := nth (Z.to_nat i) b 0.

(** The default-constructed board: all cells empty. *)
Definition empty_board : board := replicate 16 0.

(** All ranks of the board are below [r]. *)
Definition ranks_below (r : Z) (b : board) : Prop :=
  Forall (fun c => 0 <= c < r) b.

(** The data model of the spec: 16 cells with a rank in [0, 15]. *)
Definition wf_board (b : board) : Prop :=
  length b = 16%nat /\ ranks_below 16 b.

Definition on_board (i : Z) : Prop := 0 <= i < 16.

(* ===================================================================== *)
(** ** The feature extractor *)

(** [player::extract_feature]:
    [after(a) * 25 * 25 * 25 + after(b) * 25 * 25 + after(c) * 25 + after(d)],
    computed on unsigned values and returned as an [int]. *)
Definition extract_feature (after : board) (a b c d : Z) : Z :=
  to_int32
    (uadd
       (uadd
          (uadd (umul (umul (umul (at_pos after a) 25) 25) 25)
                (umul (umul (at_pos after b) 25) 25))
          (umul (at_pos after c) 25))
       (at_pos after d)).

(** The words of the spec:
    [rank(p0)*25^3 + rank(p1)*25^2 + rank(p2)*25 + rank(p3)]. *)
Definition feature_spec (b : board) (p0 p1 p2 p3 : Z) : Z :=
  at_pos b p0 * 25 ^ 3 + at_pos b p1 * 25 ^ 2 + at_pos b p2 * 25 + at_pos b p3.

(** The size of a weight table, [25 * 25 * 25 * 25]. *)
Definition table_size : Z := 25 * 25 * 25 * 25.

(* ===================================================================== *)
(** ** The weight store *)

(** Modelled from the spec: [weight.h] is not among the sources.  A weight
    table is a dense array of floats read and written with [w[i]], created
    with every entry 0. *)
Abbreviation weight := (list float).

Definition new_weight (len : Z) : weight := replicate (Z.to_nat len) F32.zero.

(** [net[i][f]] as a value.  The index [f] is an [int] converted to
    [size_t]: a negative one is far outside the table. *)
Definition net_get (net : list weight) (i : nat) (f : Z) : result float :=
  do w <- of_option OutOfBounds (net !! i);
  if f <? 0 then Err OutOfBounds
  else of_option OutOfBounds (w !! Z.to_nat f).

(** [net[i][f] += adjust]. *)
Definition net_add (net : list weight) (i : nat) (f : Z) (adjust : float)
  : result (list weight) :=
  do w <- of_option OutOfBounds (net !! i);
  if f <? 0 then Err OutOfBounds
  else
    do x <- of_option OutOfBounds (w !! Z.to_nat f);
    Ok (<[i := <[Z.to_nat f := F32.add x adjust]> w]> net).

(** The entry [j] of table [i], when there is one. *)
Definition entry (net : list weight) (i j : nat) : option float :=
  match net !! i with
  | Some w => w !! j
  | None => None
  end.

(** [player::estimate_value]. *)
Definition estimate_value (net : list weight) (after : board) : result float :=
  let value := F32.zero in
  do x <- net_get net 0 (extract_feature after 0 1 2 3);
  let value := F32.add value x in
  do x <- net_get net 1 (extract_feature after 4 5 6 7);
  let value := F32.add value x in
  do x <- net_get net 2 (extract_feature after 8 9 10 11);
  let value := F32.add value x in
  do x <- net_get net 3 (extract_feature after 12 13 14 15);
  let value := F32.add value x in
  do x <- net_get net 4 (extract_feature after 0 4 8 12);
  let value := F32.add value x in
  do x <- net_get net 5 (extract_feature after 1 5 9 13);
  let value := F32.add value x in
  do x <- net_get net 6 (extract_feature after 2 6 10 14);
  let value := F32.add value x in
  do x <- net_get net 7 (extract_feature after 3 7 11 15);
  let value := F32.add value x in
  Ok value.

(** [player::adjust_value], on the weight tables and the learning rate. *)
Definition adjust_value (alpha : float) (net : list weight) (after : board)
    (target : float) : result (list weight) :=
  do current <- estimate_value net after;
  let error := F32.sub target current in
  let adjust := F32.mul alpha error in
  do net <- net_add net 0 (extract_feature after 0 1 2 3) adjust;
  do net <- net_add net 1 (extract_feature after 4 5 6 7) adjust;
  do net <- net_add net 2 (extract_feature after 8 9 10 11) adjust;
  do net <- net_add net 3 (extract_feature after 12 13 14 15) adjust;
  do net <- net_add net 4 (extract_feature after 0 4 8 12) adjust;
  do net <- net_add net 5 (extract_feature after 1 5 9 13) adjust;
  do net <- net_add net 6 (extract_feature after 2 6 10 14) adjust;
  do net <- net_add net 7 (extract_feature after 3 7 11 15) adjust;
  Ok net.

(** The eight tuple patterns, in the order of their tables: the four rows,
    then the four columns. *)
Definition patterns : list (Z * Z * Z * Z) :=
  [ (0, 1, 2, 3); (4, 5, 6, 7); (8, 9, 10, 11); (12, 13, 14, 15);
    (0, 4, 8, 12); (1, 5, 9, 13); (2, 6, 10, 14); (3, 7, 11, 15) ].

Definition feature_of (after : board) (pat : Z * Z * Z * Z) : Z :=
  let '(a, b, c, d) := pat in extract_feature after a b c d.

(** The feature index of the board in table [i]. *)
Definition feature_at (after : board) (i : nat) : option Z :=
  feature_of after <$> patterns !! i.

(** The weight tables the player assumes: at least the eight tables of the
    patterns, each of [table_size] entries. *)
Definition wf_net (net : list weight) : Prop :=
  length net = 8%nat /\ Forall (fun w => Z.of_nat (length w) = table_size) net.

(* ===================================================================== *)
(** ** Actions, steps and the player *)

(** Modelled from the spec: [action.h] is not among the sources.  An action
    is a tagged value: [action::slide(op)], [action::place(pos, tile)], or the
    default-constructed [action()]. *)
Inductive action : Type :=
  | Slide (op : Z)
  | Place (pos : Z) (tile : Z)
  | NoAction.

(** [player::step]. *)
Record step : Type := Step { reward : Z; after : board }.

(** The members of [player]: [meta] of its base [agent], [net], [alpha] and
    [history]. *)
Record player : Type := Player {
  meta : gmap string string;
  net : list weight;
  alpha : float;
  history : list step
}.

Definition set_net (p : player) (n : list weight) : player :=
  Player (meta p) n (alpha p) (history p).

Definition set_history (p : player) (h : list step) : player :=
  Player (meta p) (net p) (alpha p) h.

(** The locals of [take_action] that the loop updates. *)
Record best : Type := Best {
  best_op : Z;
  best_reward : Z;
  best_value : Z;      (* declared [int] in the source *)
  best_after : board
}.

Definition best_init : best := Best (-1) (-1) (-99999) empty_board.

(** The test of the loop of [take_action] and its assignments:
    [if (reward + value > best_reward + best_value) { ... }].  The left side
    is a [float], the right side an [int] sum converted to [float];
    [best_value = value] converts the [float] to the [int] variable. *)
Definition consider (acc : best) (op reward : Z) (value : float) (after : board)
  : result best :=
  do bound <- int_add (best_reward acc) (best_value acc);
  if F32.gt (F32.add (F32.of_int reward) value) (F32.of_int bound) then
    do v <- F32.to_int value;
    Ok (Best op reward v after)
  else Ok acc.

Section TakeAction.

(** [board::slide], of the absent [board.h]: the reward of the move (-1 when
    it is illegal) and the board it leaves. *)
Variable slide : board -> Z -> Z * board.

(** The body of the loop of [take_action], for one [op]. *)
Definition try_op (net : list weight) (before : board) (acc : best) (op : Z)
  : result best :=
  let '(reward, after) := slide before op in
  if reward =? -1 then Ok acc
  else
    do value <- estimate_value net after;
    consider acc op reward value after.

Fixpoint for_ops (net : list weight) (before : board) (acc : best)
    (ops : list Z) : result best :=
  match ops with
  | [] => Ok acc
  | op :: ops =>
      do acc <- try_op net before acc op;
      for_ops net before acc ops
  end.

(** [player::take_action]: the action returned and the player afterwards. *)
Definition take_action (p : player) (before : board) : result (action * player) :=
  do b <- for_ops (net p) before best_init [0; 1; 2; 3];
  let p :=
    if negb (best_op b =? -1)
    then set_history p (history p ++ [Step (best_reward b) (best_after b)])
    else p in
  Ok (Slide (best_op b), p).

(** A direction is legal on a board when its slide reward is not -1. *)
Definition legal (before : board) (op : Z) : bool :=
  negb (fst (slide before op) =? -1).

End TakeAction.

(** The locals of the loop of [take_action] are the initial ones, or those
    of a legal move among the four. *)
Definition kept (slide : board -> Z -> Z * board) (before : board) (acc : best)
  : Prop :=
  acc = best_init \/
  (In (best_op acc) [0; 1; 2; 3] /\
   slide before (best_op acc) = (best_reward acc, best_after acc) /\
   best_reward acc <> -1).

(** [player::open_episode]. *)
Definition open_episode (p : player) : player := set_history p [].

(** The loop of [close_episode]: the iterations [t = k-1, ..., 0]. *)
Fixpoint td_loop (alpha : float) (hist : list step) (net : list weight)
    (k : nat) : result (list weight) :=
  match k with
  | O => Ok net
  | S t =>
      do s <- of_option OutOfBounds (hist !! t);
      do s1 <- of_option OutOfBounds (hist !! S t);
      do v <- estimate_value net (after s1);
      do net <- adjust_value alpha net (after s) (F32.add (F32.of_int (reward s1)) v);
      td_loop alpha hist net t
  end.

(** [player::close_episode].  [int t = history.size() - 2] is computed on
    [size_t] and converted to [int]; the loop runs while [t >= 0]. *)
Definition close_episode (p : player) : result player :=
  let hist := history p in
  match hist with
  | [] => Ok p
  | _ =>
      if F32.eq (alpha p) (F32.of_int 0) then Ok p
      else
        let size := Z.of_nat (length hist) in
        do last <- of_option OutOfBounds (hist !! Z.to_nat (wrap64 (size - 1)));
        do net <- adjust_value (alpha p) (net p) (after last) (F32.of_int 0);
        let t := to_int32 (wrap64 (size - 2)) in
        do net <- td_loop (alpha p) hist net (Z.to_nat (t + 1));
        Ok (set_net p net)
  end.

(** The words of the spec for the backward pass: the adjustment made for
    step [t] of a trajectory of [n] steps. *)
Definition td_step_spec (alpha : float) (hist : list step) (n : nat)
    (net : list weight) (t : nat) : result (list weight) :=
  do s <- of_option OutOfBounds (hist !! t);
  if (S t =? n)%nat then adjust_value alpha net (after s) F32.zero
  else
    do s1 <- of_option OutOfBounds (hist !! S t);
    do v <- estimate_value net (after s1);
    adjust_value alpha net (after s) (F32.add (F32.of_int (reward s1)) v).

(** Running the adjustments of the steps [ts] in order, each on the weights
    the previous ones left. *)
Fixpoint td_run (alpha : float) (hist : list step) (n : nat)
    (net : list weight) (ts : list nat) : result (list weight) :=
  match ts with
  | [] => Ok net
  | t :: ts =>
      do net <- td_step_spec alpha hist n net t;
      td_run alpha hist n net ts
  end.

(** The backward order [n-1, n-2, ..., 0]. *)
Definition backward (n : nat) : list nat := rev (seq 0 n).

(** The words of the spec for [close_episode] on a history of [n] steps: the
    [n] adjustments, from the last step down to the first. *)
Definition close_episode_spec (p : player) : result player :=
  let n := length (history p) in
  do net <- td_run (alpha p) (history p) n (net p) (backward n);
  Ok (set_net p net).

(* ===================================================================== *)
(** ** The move engine *)

Inductive direction : Type := Up | Right | Down | Left.

Definition board_eqb (a b : board) : bool :=
  (length a =? length b)%nat && forallb (fun xy => fst xy =? snd xy) (combine a b).

(** Modelled from the spec: the sliding of one line toward its index 0.
    Compress: the non-empty cells in order, then the empty ones. *)
Definition compress (line : list cell) : list cell :=
  let tiles := List.filter (fun c => negb (c =? 0)) line in
  tiles ++ replicate (length line - length tiles) 0.

(** Modelled from the spec: the merge scan, left to right.  Two adjacent equal
    non-empty cells become one cell of the next rank, worth [2^(rank+1)], and
    a gap; the merged cell is not looked at again. *)
Fixpoint merge (line : list cell) : list cell * Z :=
  match line with
  | [] => ([], 0)
  | x :: rest =>
      match rest with
      | [] => ([x], 0)
      | y :: rest' =>
          if negb (x =? 0) && (x =? y) then
            let '(m, r) := merge rest' in ((x + 1) :: 0 :: m, 2 ^ (x + 1) + r)
          else
            let '(m, r) := merge rest in (x :: m, r)
      end
  end.

(** Modelled from the spec: compress, merge, compress again. *)
Definition slide_line (line : list cell) : list cell * Z :=
  let '(m, r) := merge (compress line) in (compress m, r).

(** The four rows of a board, and the board of four rows. *)
Definition rows (b : board) : list (list cell) :=
  map (fun r => map (fun c => at_pos b (4 * r + c)) [0; 1; 2; 3]) [0; 1; 2; 3].

Definition transpose (b : board) : board :=
  concat (map (fun c => map (fun r => at_pos b (4 * r + c)) [0; 1; 2; 3]) [0; 1; 2; 3]).

Definition reflect (b : board) : board := concat (map (@rev cell) (rows b)).

(** Modelled from the spec: a slide to the left moves every row toward its
    index 0, and its reward is the sum of the rewards of the rows. *)
Definition slide_left (b : board) : board * Z :=
  let lines := map slide_line (rows b) in
  (concat (map fst lines), fold_right Z.add 0 (map snd lines)).

(** Modelled from the spec: the other directions reflect or transpose the
    indices before and after the slide to the left. *)
Definition slide_dir (d : direction) (b : board) : board * Z :=
  match d with
  | Left => slide_left b
  | Right => let '(b', r) := slide_left (reflect b) in (reflect b', r)
  | Up => let '(b', r) := slide_left (transpose b) in (transpose b', r)
  | Down =>
      let '(b', r) := slide_left (reflect (transpose b)) in
      (transpose (reflect b'), r)
  end.

(** Modelled from the spec: [board::slide], for a numbering [dir_of] of the
    four directions, which the spec leaves open.  The move is illegal, with
    reward -1, when it leaves the board as it was. *)
Definition slide_model (dir_of : Z -> direction) (b : board) (op : Z) : Z * board :=
  let '(b', r) := slide_dir (dir_of op) b in
  if board_eqb b' b then (-1, b) else (r, b').

(** The numbering of the 2048 framework: up, right, down, left. *)
Definition framework_dirs (op : Z) : direction :=
  if op =? 0 then Up else if op =? 1 then Right else if op =? 2 then Down else Left.

(* ===================================================================== *)
(** ** The random environment *)

(** The loop of [rndenv::take_action] over the shuffled positions; [popup]
    is the number that [popup(engine)] draws. *)
Fixpoint rndenv_scan (after : board) (space : list Z) (popup : Z) : action :=
  match space with
  | [] => NoAction
  | pos :: space =>
      if negb (at_pos after pos =? 0) then rndenv_scan after space popup
      else
        let tile := if negb (popup =? 0) then 1 else 2 in
        Place pos tile
  end.

(** The member [space] of [rndenv], as constructed. *)
Definition space_init : list Z :=
  [0; 1; 2; 3; 4; 5; 6; 7; 8; 9; 10; 11; 12; 13; 14; 15].

(** [rndenv::take_action], given what the two draws on the engine produce:
    the order [shuffled] that [std::shuffle] leaves in [space], and the
    number [popup] of the distribution [popup(0, 9)].  It returns the action
    and the new value of [space]. *)
Definition rndenv_take_action (shuffled : list Z) (popup : Z) (after : board)
  : action * list Z :=
  (rndenv_scan after shuffled popup, shuffled).

(** The values of [std::uniform_int_distribution<int> popup(0, 9)]. *)
Definition popup_values : list Z := [0; 1; 2; 3; 4; 5; 6; 7; 8; 9].

(** The draws of one call: every order of [space] that the shuffle can leave
    with every number of the distribution, each pair once.  [std::shuffle]
    makes all orders equally likely and the distribution all numbers, so
    the probability of an event is its share of this list. *)
Definition draws (space : list Z) : list (list Z * Z) :=
  list_prod (permutations space) popup_values.

Definition action_eqb (a b : action) : bool :=
  match a, b with
  | Slide x, Slide y => x =? y
  | Place p t, Place q u => (p =? q) && (t =? u)
  | NoAction, NoAction => true
  | _, _ => false
  end.

(** The number of draws on which the environment answers [a]. *)
Definition count_draws (space : list Z) (after : board) (a : action) : nat :=
  length (List.filter
            (fun d => action_eqb (fst (rndenv_take_action (fst d) (snd d) after)) a)
            (draws space)).

(** The empty cells of a board. *)
Definition empty_cells (b : board) : list Z :=
  List.filter (fun pos => at_pos b pos =? 0) space_init.

(** The first empty cell in an order of the positions. *)
Definition first_empty (after : board) (space : list Z) : option Z :=
  List.find (fun pos => at_pos after pos =? 0) space.

(** The tile placed for a number of the distribution: [popup ? 1 : 2]. *)
Definition tile_of (popup : Z) : Z := if negb (popup =? 0) then 1 else 2.

(** The orders of [space] whose first empty cell is [pos]. *)
Definition orders_to (after : board) (space : list Z) (pos : Z) : list (list Z) :=
  List.filter
    (fun l => match first_empty after l with
              | Some q => q =? pos
              | None => false
              end)
    (permutations space).

(** The exchange of two positions. *)
Definition exchange (p q x : Z) : Z :=
  if x =? p then q else if x =? q then p else x.

(* ===================================================================== *)
(** ** The configuration of an agent *)

(** The white space that [ss >> pair] skips. *)
Definition is_space (c : ascii) : bool :=
  let n := nat_of_ascii c in
  ((n =? 32) || ((9 <=? n) && (n <=? 13)))%nat.

Definition is_empty (s : string) : bool :=
  match s with
  | EmptyString => true
  | String _ _ => false
  end.

(** The tokens that [for (std::string pair; ss >> pair; )] reads; [cur] is
    the token being read. *)
Fixpoint tokens_from (cur : string) (s : string) : list string :=
  match s with
  | EmptyString => if is_empty cur then [] else [cur]
  | String c s =>
      if is_space c then
        if is_empty cur then tokens_from EmptyString s
        else cur :: tokens_from EmptyString s
      else tokens_from (String.append cur (String c EmptyString)) s
  end.

Definition tokens (s : string) : list string := tokens_from EmptyString s.

(** [pair.substr(0, pair.find('='))] and [pair.substr(pair.find('=') + 1)].
    Without a ['='], [find] gives [npos]: the first is the whole token, and
    [npos + 1] wraps to 0, so the second is the whole token too. *)
Definition key_value (pair : string) : string * string :=
  match String.index 0 "=" pair with
  | Some i =>
      (String.substring 0 i pair,
       String.substring (S i) (String.length pair - S i) pair)
  | None => (pair, pair)
  end.

Definition set_pair (m : gmap string string) (pair : string) : gmap string string :=
  let '(key, value) := key_value pair in <[key := value]> m.

(** The constructor of [agent]: the map [meta]. *)
Definition agent_new (args : string) : gmap string string :=
  fold_left set_pair (tokens (String.append "name=unknown role=unknown " args)) ∅.

(* ===================================================================== *)
(** ** Files of weights and the construction of a player *)

(** The files a process sees: the contents of those it can open for reading
    and the paths it can open for writing. *)
Record filesys : Type := Filesys {
  files : gmap string (list byte);
  can_write : string -> bool
}.

(** A [uint32_t] in memory, little-endian. *)
Definition le32 (b0 b1 b2 b3 : byte) : Z :=
  Z.of_N (Byte.to_N b0) + 2 ^ 8 * Z.of_N (Byte.to_N b1)
  + 2 ^ 16 * Z.of_N (Byte.to_N b2) + 2 ^ 24 * Z.of_N (Byte.to_N b3).

Definition byte_of (z : Z) : byte :=
  match Byte.of_N (Z.to_N (z mod 2 ^ 8)) with
  | Some b => b
  | None => "000"%byte
  end.

Definition bytes_of_u32 (z : Z) : list byte :=
  [byte_of z; byte_of (z / 2 ^ 8); byte_of (z / 2 ^ 16); byte_of (z / 2 ^ 24)].

(** [in.read(reinterpret_cast<char*>(&size), sizeof(size))]: when the stream
    has fewer than four bytes, [size] stays uninitialised. *)
Definition read_u32 (bs : list byte) : option (Z * list byte) :=
  match bs with
  | b0 :: b1 :: b2 :: b3 :: rest => Some (le32 b0 b1 b2 b3, rest)
  | _ => None
  end.

(** [std::vector::resize]: new tables are default-constructed, empty. *)
Definition resize (size : nat) (net : list weight) : list weight :=
  take size net ++ replicate (size - length net) [].

(** The status a parent process sees of [std::exit(code)]: its low 8 bits. *)
Definition exit_status (code : Z) : Z := Z.land code 255.

Definition set_alpha (p : player) (a : float) : player :=
  Player (meta p) (net p) a (history p).

Section Persistence.

(** [operator>>] and [operator<<] of [weight], of the absent [weight.h]: the
    table read over [w] from the bytes of a stream with the bytes left, and
    the bytes written for a table. *)
Variable read_weight : weight -> list byte -> weight * list byte.
Variable write_weight : weight -> list byte.

(** [std::stod] followed by the conversion to [float]; [None] when [stod]
    throws. *)
Variable stod : string -> option float.

(** [for (weight& w : net) in >> w]. *)
Fixpoint read_tables (net : list weight) (bs : list byte) : list weight :=
  match net with
  | [] => []
  | w :: net =>
      let '(w, bs) := read_weight w bs in
      w :: read_tables net bs
  end.

(** [player::init_weights]. *)
Definition init_weights (p : player) (info : string) : player :=
  set_net p
    (net p ++
       [ new_weight (25 * 25 * 25 * 25); new_weight (25 * 25 * 25 * 25);
         new_weight (25 * 25 * 25 * 25); new_weight (25 * 25 * 25 * 25);
         new_weight (25 * 25 * 25 * 25); new_weight (25 * 25 * 25 * 25);
         new_weight (25 * 25 * 25 * 25); new_weight (25 * 25 * 25 * 25) ]).

(** [player::load_weights]. *)
Definition load_weights (fs : filesys) (p : player) (path : string)
  : result player :=
  match files fs !! path with
  | None => Err (Exit (-1))
  | Some bs =>
      do sz <- of_option Uninit (read_u32 bs);
      let '(size, bs) := sz in
      let net := resize (Z.to_nat size) (net p) in
      Ok (set_net p (read_tables net bs))
  end.

(** [player::save_weights]: the files afterwards. *)
Definition save_weights (fs : filesys) (p : player) (path : string)
  : result filesys :=
  if negb (can_write fs path) then Err (Exit (-1))
  else
    let size := wrap32 (Z.of_nat (length (net p))) in
    let out := bytes_of_u32 size ++ concat (map write_weight (net p)) in
    Ok (Filesys (<[path := out]> (files fs)) (can_write fs)).

(** The constructor of [player]. *)
Definition player_new (fs : filesys) (args : string) : result player :=
  let m := agent_new (String.append "name=dummy role=player " args) in
  let p := Player m [] (F32.of_int 0) [] in
  do p <- match m !! "init"%string with
          | Some info => Ok (init_weights p info)
          | None => Ok p
          end;
  do p <- match m !! "load"%string with
          | Some path => load_weights fs p path
          | None => Ok p
          end;
  do p <- match m !! "alpha"%string with
          | Some value =>
              do a <- of_option Throw (stod value);
              Ok (set_alpha p a)
          | None => Ok p
          end;
  Ok p.


End Persistence.

(** The history is well formed for the tables: every board in it has its
    ranks below 25. *)
Definition boards_below (hist : list step) : Prop :=
  Forall (fun s => ranks_below 25 (after s)) hist.

(** A store whose eight tables hold the same weight everywhere, as a weight
    file can provide; with 0 these are the tables of [init_weights]. *)
Definition const_net (x : float) : list weight :=
  replicate 8 (replicate (Z.to_nat table_size) x).

(** The value that [estimate_value] finds on the store [const_net x]. *)
Definition sum8 (x : float) : float :=
  let value := F32.zero in
  let value := F32.add value x in
  let value := F32.add value x in
  let value := F32.add value x in
  let value := F32.add value x in
  let value := F32.add value x in
  let value := F32.add value x in
  let value := F32.add value x in
  let value := F32.add value x in
  value.

(** The floats 1/16 and 1/2. *)
Definition sixteenth : float := S754_finite false 8388608 (-27).
Definition half : float := S754_finite false 8388608 (-24).

(** A store that prefers a tile on position 1: the entry of the first row
    table for that row is 1/2, every other weight is 1/16. *)
Definition biased_net : list weight :=
  <[0%nat := <[625%nat := half]> (replicate (Z.to_nat table_size) sixteenth)]>
    (const_net sixteenth).

(** The float 15/16. *)
Definition fifteen_sixteenths : float := S754_finite false 15728640 (-24).

(** A board with a single 2-tile, on position 5. *)
Definition one_tile : board := [0; 0; 0; 0; 0; 1; 0; 0; 0; 0; 0; 0; 0; 0; 0; 0].

(* ===================================================================== *)
(** ** More of [agent] *)

(** [agent::property]: [meta.at(key)], which throws when the key is absent. *)
Definition property (m : gmap string string) (key : string) : result string :=
  of_option Throw (m !! key).

(** [agent::notify]: the same split of [msg] at its first ['='] as in the
    constructor, and the same assignment. *)
Definition notify (m : gmap string string) (msg : string) : gmap string string :=
  set_pair m msg.

(** [agent::name] and [agent::role]. *)
Definition name (m : gmap string string) : result string := property m "name".
Definition role (m : gmap string string) : result string := property m "role".

(** The map after the two tokens that the constructor of [agent] puts before
    its arguments. *)
Definition meta_defaults : gmap string string :=
  fold_left set_pair ["name=unknown"; "role=unknown"]%string ∅.

(** A string has a white space character. *)
Fixpoint has_space (s : string) : bool :=
  match s with
  | EmptyString => false
  | String c s => is_space c || has_space s
  end.

(** A string has the character ['=']. *)
Fixpoint has_equals (s : string) : bool :=
  match s with
  | EmptyString => false
  | String c s => Ascii.eqb c "="%char || has_equals s
  end.

(** A word: not empty, without white space. *)
Definition is_word (s : string) : bool := negb (is_empty s) && negb (has_space s).

(** The value that the tokens give to [key]: that of the last token with this
    key. *)
Definition last_value (key : string) (pairs : list string) : option string :=
  match List.find (fun kv => String.eqb (fst kv) key) (rev (map key_value pairs)) with
  | Some kv => Some (snd kv)
  | None => None
  end.

(** ** The dummy player *)

(** The loop of [dummy_player::take_action] over the shuffled opcodes. *)
Fixpoint dummy_scan (slide : board -> Z -> Z * board) (before : board)
    (opcode : list Z) : action :=
  match opcode with
  | [] => NoAction
  | op :: opcode =>
      let '(reward, _) := slide before op in
      if negb (reward =? -1) then Slide op
      else dummy_scan slide before opcode
  end.

(** The member [opcode] of [dummy_player], as constructed. *)
Definition opcode_init : list Z := [0; 1; 2; 3].

(** [dummy_player::take_action], given the order [shuffled] that
    [std::shuffle] leaves in [opcode]: the action and the new [opcode]. *)
Definition dummy_take_action (slide : board -> Z -> Z * board)
    (shuffled : list Z) (before : board) : action * list Z :=
  (dummy_scan slide before shuffled, shuffled).

(** What a player needs of its tables and history for an episode: the 8
    tables of 25^4 entries, and boards with ranks below 25. *)
Definition episode_ready (p : player) : Prop :=
  wf_net (net p) /\ boards_below (history p).

(** The lengths of the tables. *)
Definition shape (net : list weight) : list nat := length <$> net.

(* ===================================================================== *)
(** * Properties *)

(** ** The monad *)

Lemma rbind_ok_inv {A B : Type} (m : result A) (k : A -> result B) (b : B) :
  rbind m k = Ok b -> exists a, m = Ok a /\ k a = Ok b.
Proof.
  destruct m as [a | e]; simpl; intros H; [eauto | discriminate].
Qed.

Lemma of_option_ok_inv {A : Type} (e : error) (o : option A) (a : A) :
  of_option e o = Ok a -> o = Some a.
Proof.
  destruct o; simpl; congruence.
Qed.

(** ** The feature extractor *)

Lemma at_pos_below (r : Z) (b : board) (i : Z) :
  0 < r -> ranks_below r b -> 0 <= at_pos b i < r.
Proof.
  intros Hr Hb. unfold at_pos.
  destruct (nth_in_or_default (Z.to_nat i) b 0) as [Hin | ->]; [|lia].
  unfold ranks_below in Hb. rewrite List.Forall_forall in Hb. exact (Hb _ Hin).
Qed.

Lemma ranks_below_mono (r r' : Z) (b : board) :
  r <= r' -> ranks_below r b -> ranks_below r' b.
Proof.
  intros Hr Hb. unfold ranks_below in *.
  eapply List.Forall_impl; [|exact Hb]. simpl. intros c Hc. lia.
Qed.

(** With ranks below 25 nothing wraps: the feature is the base-25 number of
    the four ranks, and it is an index of a table. *)
Lemma extract_feature_small (b : board) (p0 p1 p2 p3 : Z) :
  ranks_below 25 b ->
  extract_feature b p0 p1 p2 p3 = feature_spec b p0 p1 p2 p3 /\
  0 <= extract_feature b p0 p1 p2 p3 < table_size.
Proof.
  intros Hb.
  pose proof (at_pos_below 25 b p0 ltac:(lia) Hb) as H0.
  pose proof (at_pos_below 25 b p1 ltac:(lia) Hb) as H1.
  pose proof (at_pos_below 25 b p2 ltac:(lia) Hb) as H2.
  pose proof (at_pos_below 25 b p3 ltac:(lia) Hb) as H3.
  unfold extract_feature, feature_spec, table_size, uadd, umul, wrap32, to_int32.
  set (x0 := at_pos b p0) in *. set (x1 := at_pos b p1) in *.
  set (x2 := at_pos b p2) in *. set (x3 := at_pos b p3) in *.
  change (2 ^ 32) with 4294967296. change (2 ^ 31) with 2147483648.
  change (25 ^ 3) with 15625. change (25 ^ 2) with 625.
  rewrite !(Z.mod_small (x0 * 25)) by lia.
  rewrite !(Z.mod_small (x0 * 25 * 25)) by lia.
  rewrite !(Z.mod_small (x0 * 25 * 25 * 25)) by lia.
  rewrite !(Z.mod_small (x1 * 25)) by lia.
  rewrite !(Z.mod_small (x1 * 25 * 25)) by lia.
  rewrite !(Z.mod_small (x2 * 25)) by lia.
  rewrite !(Z.mod_small (x0 * 25 * 25 * 25 + x1 * 25 * 25)) by lia.
  rewrite !(Z.mod_small (x0 * 25 * 25 * 25 + x1 * 25 * 25 + x2 * 25)) by lia.
  rewrite !(Z.mod_small (x0 * 25 * 25 * 25 + x1 * 25 * 25 + x2 * 25 + x3)) by lia.
  rewrite Z.mod_small by lia.
  lia.
Qed.

(** C6.  On every board of the data model (16 cells, ranks in [0, 15]) and
    for every four positions of the board, [extract_feature] returns
    [rank(p0)*25^3 + rank(p1)*25^2 + rank(p2)*25 + rank(p3)], where [rank(p)]
    is the cell stored at [p]. *)
Theorem extract_feature_base25 (b : board) (p0 p1 p2 p3 : Z) :
  wf_board b ->
  on_board p0 -> on_board p1 -> on_board p2 -> on_board p3 ->
  extract_feature b p0 p1 p2 p3
  = at_pos b p0 * 25 ^ 3 + at_pos b p1 * 25 ^ 2 + at_pos b p2 * 25 + at_pos b p3.
Proof.
  intros [_ Hb] _ _ _ _.
  apply (ranks_below_mono 16 25) in Hb; [|lia].
  exact (proj1 (extract_feature_small b p0 p1 p2 p3 Hb)).
Qed.

Lemma extract_feature_base25_witness :
  extract_feature [0; 1; 2; 3; 4; 5; 6; 7; 8; 9; 10; 11; 12; 13; 14; 15] 1 5 9 13
  = 1 * 25 ^ 3 + 5 * 25 ^ 2 + 9 * 25 + 13.
Proof.
  apply (extract_feature_base25
           [0; 1; 2; 3; 4; 5; 6; 7; 8; 9; 10; 11; 12; 13; 14; 15] 1 5 9 13).
  - split; [reflexivity|].
    unfold ranks_below. repeat (apply List.Forall_cons; [lia|]). apply List.Forall_nil.
  - unfold on_board; lia.
  - unfold on_board; lia.
  - unfold on_board; lia.
  - unfold on_board; lia.
Defined.

(** ** The weight tables *)

Lemma wf_net_lookup (net : list weight) (i : nat) :
  wf_net net -> (i < 8)%nat ->
  exists w, net !! i = Some w /\ Z.of_nat (length w) = table_size.
Proof.
  intros [Hlen Hall] Hi.
  destruct (lookup_lt_is_Some_2 net i) as [w Hw]; [lia|].
  exists w. split; [exact Hw|].
  rewrite List.Forall_forall in Hall. apply Hall.
  apply list_elem_of_In. eapply list_elem_of_lookup_2. exact Hw.
Qed.

Lemma net_get_ok (net : list weight) (i : nat) (f : Z) :
  wf_net net -> (i < 8)%nat -> 0 <= f < table_size ->
  is_ok (net_get net i f).
Proof.
  intros Hnet Hi Hf.
  destruct (wf_net_lookup net i Hnet Hi) as (w & Hw & Hlen).
  unfold net_get. rewrite Hw. simpl.
  destruct (f <? 0) eqn:Hneg; [lia|].
  destruct (lookup_lt_is_Some_2 w (Z.to_nat f)) as [x Hx]; [lia|].
  rewrite Hx. simpl. exists x. reflexivity.
Qed.

Lemma net_add_inv (net net' : list weight) (i : nat) (f : Z) (adjust : float) :
  net_add net i f adjust = Ok net' ->
  exists w x,
    net !! i = Some w /\ 0 <= f /\ w !! Z.to_nat f = Some x /\
    net' = <[i := <[Z.to_nat f := F32.add x adjust]> w]> net.
Proof.
  unfold net_add. intros H.
  apply rbind_ok_inv in H. destruct H as (w & Hw & H).
  apply of_option_ok_inv in Hw.
  destruct (f <? 0) eqn:Hneg; [discriminate|].
  apply rbind_ok_inv in H. destruct H as (x & Hx & H).
  apply of_option_ok_inv in Hx.
  injection H as <-. exists w, x. repeat split; [assumption|lia|assumption].
Qed.

Lemma net_add_ok (net : list weight) (i : nat) (f : Z) (adjust : float) :
  wf_net net -> (i < 8)%nat -> 0 <= f < table_size ->
  exists net', net_add net i f adjust = Ok net' /\ wf_net net'.
Proof.
  intros Hnet Hi Hf.
  destruct (wf_net_lookup net i Hnet Hi) as (w & Hw & Hlen).
  destruct (lookup_lt_is_Some_2 w (Z.to_nat f)) as [x Hx]; [lia|].
  unfold net_add. rewrite Hw. simpl.
  destruct (f <? 0) eqn:Hneg; [lia|].
  rewrite Hx. simpl. eexists. split; [reflexivity|].
  destruct Hnet as [Hl Hall]. split.
  - rewrite length_insert. exact Hl.
  - apply Forall_insert; [exact Hall|].
    rewrite length_insert. exact Hlen.
Qed.

(** One [+=] changes the entry it names and no other. *)
Lemma net_add_entry (net net' : list weight) (i : nat) (f : Z) (adjust : float) :
  net_add net i f adjust = Ok net' ->
  forall i' j,
    entry net' i' j
    = if decide (i' = i /\ Z.of_nat j = f)
      then (fun x => F32.add x adjust) <$> entry net i' j
      else entry net i' j.
Proof.
  intros H i' j.
  destruct (net_add_inv _ _ _ _ _ H) as (w & x & Hw & Hf & Hx & ->).
  unfold entry.
  destruct (decide (i' = i)) as [-> | Hne].
  - rewrite list_lookup_insert_eq by (eapply lookup_lt_Some; exact Hw).
    rewrite Hw.
    destruct (decide (Z.of_nat j = f)) as [<- | Hjf].
    + rewrite Nat2Z.id in *.
      rewrite list_lookup_insert_eq by (eapply lookup_lt_Some; exact Hx).
      rewrite decide_True by (split; reflexivity).
      rewrite Hx. reflexivity.
    + rewrite list_lookup_insert_ne by lia.
      rewrite decide_False by (intros [_ ?]; contradiction).
      reflexivity.
  - rewrite list_lookup_insert_ne by congruence.
    rewrite decide_False by (intros [? _]; contradiction).
    reflexivity.
Qed.

Lemma net_add_length (net net' : list weight) (i : nat) (f : Z) (adjust : float) :
  net_add net i f adjust = Ok net' -> length net' = length net.
Proof.
  intros H. destruct (net_add_inv _ _ _ _ _ H) as (w & x & _ & _ & _ & ->).
  apply length_insert.
Qed.

Lemma net_add_entry_other (net net' : list weight) (i : nat) (f : Z)
    (adjust : float) (i' j : nat) :
  net_add net i f adjust = Ok net' -> i' <> i ->
  entry net' i' j = entry net i' j.
Proof.
  intros H Hne. rewrite (net_add_entry _ _ _ _ _ H).
  apply decide_False. intros [? _]. contradiction.
Qed.

Lemma net_add_entry_same (net net' : list weight) (i : nat) (f : Z)
    (adjust : float) (j : nat) :
  net_add net i f adjust = Ok net' ->
  entry net' i j
  = if decide (Some f = Some (Z.of_nat j))
    then (fun x => F32.add x adjust) <$> entry net i j
    else entry net i j.
Proof.
  intros H. rewrite (net_add_entry _ _ _ _ _ H).
  destruct (decide (Some f = Some (Z.of_nat j))) as [E | N].
  - apply decide_True. split; [reflexivity | congruence].
  - apply decide_False. intros [_ E]. apply N. congruence.
Qed.

(** The effect of one of the eight writes on the entry [j] of table [i]. *)
Ltac one_write H :=
  first [ rewrite (net_add_entry_same _ _ _ _ _ _ H)
        | rewrite (net_add_entry_other _ _ _ _ _ _ _ H) by discriminate ].

(** The features of the eight patterns index the tables. *)
Lemma feature_at_bounds (b : board) (i : nat) (f : Z) :
  ranks_below 25 b -> feature_at b i = Some f -> 0 <= f <= table_size - 1.
Proof.
  intros Hb. unfold feature_at.
  destruct (patterns !! i) as [[[[p0 p1] p2] p3]|] eqn:Hp; simpl; [|discriminate].
  intros [= <-].
  pose proof (proj2 (extract_feature_small b p0 p1 p2 p3 Hb)). lia.
Qed.

Lemma estimate_value_ok (net : list weight) (b : board) :
  ranks_below 25 b -> wf_net net -> is_ok (estimate_value net b).
Proof.
  intros Hb Hnet. unfold estimate_value.
  destruct (net_get_ok net 0 (extract_feature b 0 1 2 3) Hnet ltac:(lia)
              (proj2 (extract_feature_small b _ _ _ _ Hb))) as [x0 ->].
  destruct (net_get_ok net 1 (extract_feature b 4 5 6 7) Hnet ltac:(lia)
              (proj2 (extract_feature_small b _ _ _ _ Hb))) as [x1 ->].
  destruct (net_get_ok net 2 (extract_feature b 8 9 10 11) Hnet ltac:(lia)
              (proj2 (extract_feature_small b _ _ _ _ Hb))) as [x2 ->].
  destruct (net_get_ok net 3 (extract_feature b 12 13 14 15) Hnet ltac:(lia)
              (proj2 (extract_feature_small b _ _ _ _ Hb))) as [x3 ->].
  destruct (net_get_ok net 4 (extract_feature b 0 4 8 12) Hnet ltac:(lia)
              (proj2 (extract_feature_small b _ _ _ _ Hb))) as [x4 ->].
  destruct (net_get_ok net 5 (extract_feature b 1 5 9 13) Hnet ltac:(lia)
              (proj2 (extract_feature_small b _ _ _ _ Hb))) as [x5 ->].
  destruct (net_get_ok net 6 (extract_feature b 2 6 10 14) Hnet ltac:(lia)
              (proj2 (extract_feature_small b _ _ _ _ Hb))) as [x6 ->].
  destruct (net_get_ok net 7 (extract_feature b 3 7 11 15) Hnet ltac:(lia)
              (proj2 (extract_feature_small b _ _ _ _ Hb))) as [x7 ->].
  simpl. eexists. reflexivity.
Qed.

Ltac step_net_add Hnet Hb :=
  match goal with
  | |- context [net_add ?n ?i (extract_feature ?b ?p0 ?p1 ?p2 ?p3) ?adj] =>
      let n' := fresh "net" in
      let E := fresh "E" in
      let W := fresh "Hnet" in
      destruct (net_add_ok n i (extract_feature b p0 p1 p2 p3) adj Hnet ltac:(lia)
                  (proj2 (extract_feature_small b p0 p1 p2 p3 Hb)))
        as (n' & E & W);
      rewrite E; simpl; clear E; revert W
  end.

Lemma adjust_value_ok (alpha : float) (net : list weight) (b : board)
    (target : float) :
  ranks_below 25 b -> wf_net net ->
  exists net', adjust_value alpha net b target = Ok net' /\ wf_net net'.
Proof.
  intros Hb Hnet. unfold adjust_value.
  destruct (estimate_value_ok net b Hb Hnet) as [current ->]. simpl.
  step_net_add Hnet Hb. intros Hnet0.
  step_net_add Hnet0 Hb. intros Hnet1.
  step_net_add Hnet1 Hb. intros Hnet2.
  step_net_add Hnet2 Hb. intros Hnet3.
  step_net_add Hnet3 Hb. intros Hnet4.
  step_net_add Hnet4 Hb. intros Hnet5.
  step_net_add Hnet5 Hb. intros Hnet6.
  step_net_add Hnet6 Hb. intros Hnet7.
  eexists. split; [reflexivity | exact Hnet7].
Qed.

(** C7.  On a board whose ranks are all below 25 and with 8 tables of 25^4
    entries, the feature index of each of the 8 patterns lies in
    [0, 25^4 - 1]; every lookup of [estimate_value] and every write of
    [adjust_value] is then inside its table: both return without a fault. *)
Theorem features_within_tables (alpha target : float) (net : list weight)
    (b : board) :
  ranks_below 25 b -> wf_net net ->
  (forall i f, feature_at b i = Some f -> 0 <= f <= 25 ^ 4 - 1) /\
  is_ok (estimate_value net b) /\
  is_ok (adjust_value alpha net b target).
Proof.
  intros Hb Hnet. split; [|split].
  - intros i f Hf. exact (feature_at_bounds b i f Hb Hf).
  - exact (estimate_value_ok net b Hb Hnet).
  - destruct (adjust_value_ok alpha net b target Hb Hnet) as (net' & E & _).
    exists net'. exact E.
Qed.

Lemma wf_const_net (x : float) : wf_net (const_net x).
Proof.
  unfold const_net. split.
  - apply length_replicate.
  - apply Forall_replicate.
    rewrite length_replicate. apply Z2Nat.id. unfold table_size. lia.
Qed.

Lemma net_get_const (x : float) (i : nat) (f : Z) :
  (i < 8)%nat -> 0 <= f < table_size -> net_get (const_net x) i f = Ok x.
Proof.
  intros Hi Hf. unfold net_get, const_net.
  rewrite (lookup_replicate_2 8 _ i Hi). cbn [of_option rbind].
  destruct (f <? 0) eqn:Hneg; [lia|].
  rewrite lookup_replicate_2 by lia. reflexivity.
Qed.

Lemma net_get_const_outside (x : float) (i : nat) (f : Z) :
  (i < 8)%nat -> table_size <= f -> net_get (const_net x) i f = Err OutOfBounds.
Proof.
  intros Hi Hf. unfold net_get, const_net.
  rewrite (lookup_replicate_2 8 _ i Hi). cbn [of_option rbind].
  destruct (f <? 0) eqn:Hneg; [reflexivity|].
  rewrite (proj1 (lookup_replicate_None _ _ _)) by lia. reflexivity.
Qed.

Lemma ranks_below_one_tile (r : Z) : 1 < r -> ranks_below r one_tile.
Proof.
  intros Hr. unfold ranks_below, one_tile.
  repeat (apply List.Forall_cons; [lia|]). apply List.Forall_nil.
Qed.

(** [init_weights] on a player without tables gives the 8 tables of 25^4
    entries, all 0. *)
Lemma init_weights_const (p : player) (info : string) :
  net p = [] -> net (init_weights p info) = const_net F32.zero.
Proof.
  intros Hnet. unfold init_weights, set_net. cbn [net]. rewrite Hnet.
  exact eq_refl.
Qed.

Lemma init_weights_wf (p : player) (info : string) :
  net p = [] -> wf_net (net (init_weights p info)).
Proof.
  intros Hnet. rewrite (init_weights_const p info Hnet). apply wf_const_net.
Qed.

Lemma features_within_tables_witness :
  (forall i f, feature_at one_tile i = Some f -> 0 <= f <= 25 ^ 4 - 1) /\
  is_ok (estimate_value (const_net F32.zero) one_tile) /\
  is_ok (adjust_value F32.zero (const_net F32.zero) one_tile F32.zero).
Proof.
  apply (features_within_tables F32.zero F32.zero (const_net F32.zero) one_tile).
  - apply ranks_below_one_tile. lia.
  - apply wf_const_net.
Defined.

(** A rank of 25 is outside the precondition: on the tables of
    [init_weights], the feature of the first row is then 25^4, one past the
    last entry, and [estimate_value] reads outside the table. *)
Lemma rank_25_leaves_table :
  extract_feature (25 :: replicate 15 0) 0 1 2 3 = table_size /\
  estimate_value (const_net F32.zero) (25 :: replicate 15 0) = Err OutOfBounds.
Proof.
  split; [reflexivity|].
  unfold estimate_value.
  rewrite net_get_const_outside; [reflexivity | lia |].
  apply Z.eq_le_incl. reflexivity.
Qed.

(** ** The adjustment of the weights *)

Lemma feature_at_cases (b : board) :
  feature_at b 0 = Some (extract_feature b 0 1 2 3) /\
  feature_at b 1 = Some (extract_feature b 4 5 6 7) /\
  feature_at b 2 = Some (extract_feature b 8 9 10 11) /\
  feature_at b 3 = Some (extract_feature b 12 13 14 15) /\
  feature_at b 4 = Some (extract_feature b 0 4 8 12) /\
  feature_at b 5 = Some (extract_feature b 1 5 9 13) /\
  feature_at b 6 = Some (extract_feature b 2 6 10 14) /\
  feature_at b 7 = Some (extract_feature b 3 7 11 15) /\
  forall i, feature_at b (S (S (S (S (S (S (S (S i)))))))) = None.
Proof.
  repeat split.
Qed.

Lemma adjust_value_inv (alpha : float) (net net' : list weight) (b : board)
    (target : float) :
  adjust_value alpha net b target = Ok net' ->
  exists current,
    estimate_value net b = Ok current /\
    length net' = length net /\
    forall i j,
      entry net' i j
      = if decide (feature_at b i = Some (Z.of_nat j))
        then (fun x => F32.add x (F32.mul alpha (F32.sub target current)))
               <$> entry net i j
        else entry net i j.
Proof.
  unfold adjust_value. intros H.
  apply rbind_ok_inv in H. destruct H as (current & Hcur & H).
  exists current. split; [exact Hcur|].
  set (adjust := F32.mul alpha (F32.sub target current)) in *.
  apply rbind_ok_inv in H. destruct H as (n0 & H0 & H).
  apply rbind_ok_inv in H. destruct H as (n1 & H1 & H).
  apply rbind_ok_inv in H. destruct H as (n2 & H2 & H).
  apply rbind_ok_inv in H. destruct H as (n3 & H3 & H).
  apply rbind_ok_inv in H. destruct H as (n4 & H4 & H).
  apply rbind_ok_inv in H. destruct H as (n5 & H5 & H).
  apply rbind_ok_inv in H. destruct H as (n6 & H6 & H).
  apply rbind_ok_inv in H. destruct H as (n7 & H7 & H).
  injection H as <-.
  split.
  - rewrite (net_add_length _ _ _ _ _ H7), (net_add_length _ _ _ _ _ H6),
      (net_add_length _ _ _ _ _ H5), (net_add_length _ _ _ _ _ H4),
      (net_add_length _ _ _ _ _ H3), (net_add_length _ _ _ _ _ H2),
      (net_add_length _ _ _ _ _ H1), (net_add_length _ _ _ _ _ H0).
    reflexivity.
  - intros i j.
    destruct (feature_at_cases b) as (F0 & F1 & F2 & F3 & F4 & F5 & F6 & F7 & F8).
    destruct i as [|[|[|[|[|[|[|[|i]]]]]]]];
      one_write H7; one_write H6; one_write H5; one_write H4;
      one_write H3; one_write H2; one_write H1; one_write H0;
      rewrite ?F0, ?F1, ?F2, ?F3, ?F4, ?F5, ?F6, ?F7, ?(F8 i);
      exact eq_refl.
Qed.

(** C5.  [adjust_value] reads [estimate_value] once, on the weights as they
    are before the call, and adds the one scalar
    [alpha * (target - estimate_value(board))] to the entry of each of the 8
    tables at the feature index of the board for that table; every other
    entry of every table is left as it was. *)
Theorem adjust_value_broadcast (alpha : float) (net : list weight) (b : board)
    (target : float) :
  ranks_below 25 b -> wf_net net ->
  exists current net',
    estimate_value net b = Ok current /\
    adjust_value alpha net b target = Ok net' /\
    length net' = length net /\
    forall i j,
      entry net' i j
      = if decide (feature_at b i = Some (Z.of_nat j))
        then (fun x => F32.add x (F32.mul alpha (F32.sub target current)))
               <$> entry net i j
        else entry net i j.
Proof.
  intros Hb Hnet.
  destruct (adjust_value_ok alpha net b target Hb Hnet) as (net' & E & _).
  destruct (adjust_value_inv alpha net net' b target E) as (current & Hc & Hl & He).
  exists current, net'. auto.
Qed.

Lemma adjust_value_broadcast_witness :
  exists current net',
    estimate_value (const_net F32.zero) one_tile = Ok current /\
    adjust_value (F32.of_int 1) (const_net F32.zero) one_tile (F32.of_int 4) = Ok net' /\
    length net' = length (const_net F32.zero) /\
    forall i j,
      entry net' i j
      = if decide (feature_at one_tile i = Some (Z.of_nat j))
        then (fun x => F32.add x (F32.mul (F32.of_int 1) (F32.sub (F32.of_int 4) current)))
               <$> entry (const_net F32.zero) i j
        else entry (const_net F32.zero) i j.
Proof.
  apply (adjust_value_broadcast (F32.of_int 1) (const_net F32.zero) one_tile
           (F32.of_int 4)).
  - apply ranks_below_one_tile. lia.
  - apply wf_const_net.
Defined.

(** ** The end of an episode *)

(** C3.  When the history is empty or the learning rate equals 0,
    [close_episode] returns with the player as it was: every entry of every
    weight table is identical to its value before the call. *)
Theorem close_episode_evaluation_mode (p : player) :
  history p = [] \/ F32.eq (alpha p) (F32.of_int 0) = true ->
  close_episode p = Ok p /\
  forall p', close_episode p = Ok p' -> net p' = net p.
Proof.
  intros H.
  assert (E : close_episode p = Ok p).
  { unfold close_episode. destruct (history p) as [|s hist] eqn:Hh.
    - reflexivity.
    - destruct H as [H | H]; [discriminate|]. rewrite H. reflexivity. }
  split; [exact E|].
  intros p' E'. rewrite E in E'. injection E' as <-. reflexivity.
Qed.

Lemma close_episode_evaluation_mode_witness :
  close_episode (Player ∅ (const_net F32.zero) F32.zero [Step 0 one_tile])
  = Ok (Player ∅ (const_net F32.zero) F32.zero [Step 0 one_tile]) /\
  forall p',
    close_episode (Player ∅ (const_net F32.zero) F32.zero [Step 0 one_tile]) = Ok p' ->
    net p' = net (Player ∅ (const_net F32.zero) F32.zero [Step 0 one_tile]).
Proof.
  apply (close_episode_evaluation_mode
           (Player ∅ (const_net F32.zero) F32.zero [Step 0 one_tile])).
  right. reflexivity.
Defined.

Lemma backward_S (k : nat) : backward (S k) = k :: backward k.
Proof.
  unfold backward. rewrite seq_S, rev_app_distr. reflexivity.
Qed.

(** The loop of [close_episode] makes the adjustments of the spec for the
    steps below the last one, from the highest down. *)
Lemma td_loop_run (alpha : float) (hist : list step) (k : nat) :
  (k < length hist)%nat ->
  forall net,
    td_loop alpha hist net k = td_run alpha hist (length hist) net (backward k).
Proof.
  induction k as [|k IH]; intros Hk net0.
  - reflexivity.
  - rewrite backward_S. cbn [td_loop td_run]. unfold td_step_spec.
    destruct (hist !! k) as [s|]; [|reflexivity]. cbn [of_option rbind].
    destruct (Nat.eqb_spec (S k) (length hist)) as [E | _]; [lia|].
    destruct (hist !! S k) as [s1|]; [|reflexivity]. cbn [of_option rbind].
    destruct (estimate_value net0 (after s1)) as [v|e]; [|reflexivity].
    cbn [rbind].
    destruct (adjust_value alpha net0 (after s) _) as [net1|e]; [|reflexivity].
    cbn [rbind]. apply IH. lia.
Qed.

(** The index arithmetic of [close_episode] on a history of [n >= 1] steps
    that an [int] can count. *)
Lemma loop_start (n : nat) :
  (1 <= n)%nat -> Z.of_nat n < 2 ^ 31 ->
  Z.to_nat (wrap64 (Z.of_nat n - 1)) = (n - 1)%nat /\
  Z.to_nat (to_int32 (wrap64 (Z.of_nat n - 2)) + 1) = (n - 1)%nat.
Proof.
  intros Hn Hlt. unfold wrap64, to_int32.
  change (2 ^ 31) with 2147483648 in *.
  change (2 ^ 32) with 4294967296.
  change (2 ^ 64) with 18446744073709551616.
  split.
  - rewrite Z.mod_small by lia. lia.
  - destruct (Nat.eq_dec n 1%nat) as [-> | Hne].
    + reflexivity.
    + rewrite (Z.mod_small (Z.of_nat n - 2)) by lia.
      rewrite Z.mod_small by lia. lia.
Qed.

Lemma td_run_ok (alpha : float) (hist : list step) (ts : list nat) :
  boards_below hist ->
  Forall (fun t => (t < length hist)%nat) ts ->
  forall net,
    wf_net net ->
    exists net', td_run alpha hist (length hist) net ts = Ok net' /\ wf_net net'.
Proof.
  intros Hhist Hts. induction Hts as [|t ts Ht _ IH]; intros net0 Hnet.
  - exists net0. split; [reflexivity | exact Hnet].
  - cbn [td_run]. unfold td_step_spec.
    destruct (lookup_lt_is_Some_2 hist t Ht) as [s Hs].
    rewrite Hs. cbn [of_option rbind].
    assert (Hb : ranks_below 25 (after s)).
    { unfold boards_below in Hhist. rewrite List.Forall_forall in Hhist.
      apply Hhist. apply list_elem_of_In. eapply list_elem_of_lookup_2. exact Hs. }
    destruct (Nat.eqb_spec (S t) (length hist)) as [E | Hne].
    + destruct (adjust_value_ok alpha net0 (after s) F32.zero Hb Hnet)
        as (net1 & -> & Hnet1).
      cbn [rbind]. apply IH. exact Hnet1.
    + destruct (lookup_lt_is_Some_2 hist (S t)) as [s1 Hs1]; [lia|].
      rewrite Hs1. cbn [of_option rbind].
      assert (Hb1 : ranks_below 25 (after s1)).
      { unfold boards_below in Hhist. rewrite List.Forall_forall in Hhist.
        apply Hhist. apply list_elem_of_In. eapply list_elem_of_lookup_2. exact Hs1. }
      destruct (estimate_value_ok net0 (after s1) Hb1 Hnet) as [v ->].
      cbn [rbind].
      destruct (adjust_value_ok alpha net0 (after s)
                  (F32.add (F32.of_int (reward s1)) v) Hb Hnet)
        as (net1 & -> & Hnet1).
      cbn [rbind]. apply IH. exact Hnet1.
Qed.

Lemma backward_lt (n : nat) : Forall (fun t => (t < n)%nat) (backward n).
Proof.
  unfold backward. rewrite List.Forall_forall. intros t Ht.
  apply in_rev in Ht. apply in_seq in Ht. lia.
Qed.

Lemma close_episode_spec_ok (p : player) :
  wf_net (net p) -> boards_below (history p) -> is_ok (close_episode_spec p).
Proof.
  intros Hnet Hhist. unfold close_episode_spec.
  destruct (td_run_ok (alpha p) (history p) (backward (length (history p)))
              Hhist (backward_lt _) (net p) Hnet) as (net' & -> & _).
  cbn [rbind]. eexists. reflexivity.
Qed.

Lemma close_episode_refines (p : player) :
  history p <> [] ->
  F32.eq (alpha p) (F32.of_int 0) = false ->
  Z.of_nat (length (history p)) < 2 ^ 31 ->
  close_episode p = close_episode_spec p.
Proof.
  intros Hne Halpha Hlen.
  unfold close_episode, close_episode_spec.
  destruct (history p) as [|s0 rest] eqn:Hh; [contradiction|].
  rewrite Halpha.
  set (hist := s0 :: rest) in *.
  assert (Hn : (1 <= length hist)%nat) by (simpl; lia).
  destruct (loop_start (length hist) Hn Hlen) as [-> ->].
  destruct (length hist) as [|m] eqn:Hm; [lia|].
  replace (S m - 1)%nat with m by lia.
  rewrite backward_S. cbn [td_run]. unfold td_step_spec.
  destruct (hist !! m) as [last|]; [|reflexivity]. cbn [of_option rbind].
  rewrite Nat.eqb_refl.
  change (F32.of_int 0) with F32.zero.
  destruct (adjust_value (alpha p) (net p) (after last) F32.zero) as [net1|e];
    [|reflexivity].
  cbn [rbind]. rewrite <- Hm.
  rewrite (td_loop_run (alpha p) hist m) by lia.
  reflexivity.
Qed.

(** C4.  On a history of [n >= 1] steps with a learning rate other than 0,
    [close_episode] makes exactly the [n] adjustments of the backward pass,
    in the order [n-1, ..., 0]: toward 0 for the state of the last step, then
    for each earlier step [t] toward
    [reward[t+1] + estimate_value(state[t+1])], read on the weights that the
    adjustments of the later steps have left.  ([n] is below 2^31, as the
    [int] counter of the loop requires.)  On tables of the assumed shape it
    returns without a fault. *)
Theorem close_episode_backward_td (p : player) :
  history p <> [] ->
  F32.eq (alpha p) (F32.of_int 0) = false ->
  Z.of_nat (length (history p)) < 2 ^ 31 ->
  close_episode p = close_episode_spec p /\
  length (backward (length (history p))) = length (history p) /\
  (wf_net (net p) -> boards_below (history p) -> is_ok (close_episode p)).
Proof.
  intros Hne Halpha Hlen.
  pose proof (close_episode_refines p Hne Halpha Hlen) as E.
  split; [exact E|]. split.
  - unfold backward. rewrite length_rev, length_seq. reflexivity.
  - intros Hnet Hhist. rewrite E. exact (close_episode_spec_ok p Hnet Hhist).
Qed.

Lemma close_episode_backward_td_witness :
  let p := Player ∅ (const_net F32.zero) (F32.of_int 1)
             [Step 0 one_tile; Step 4 one_tile] in
  close_episode p = close_episode_spec p /\
  length (backward (length (history p))) = length (history p) /\
  (wf_net (net p) -> boards_below (history p) -> is_ok (close_episode p)).
Proof.
  intros p.
  apply (close_episode_backward_td p).
  - discriminate.
  - reflexivity.
  - simpl. lia.
Defined.

(** ** The choice of a move *)

Lemma estimate_value_const (x : float) (b : board) :
  ranks_below 25 b -> estimate_value (const_net x) b = Ok (sum8 x).
Proof.
  intros Hb. unfold estimate_value, sum8.
  rewrite !net_get_const
    by (first [lia | exact (proj2 (extract_feature_small b _ _ _ _ Hb))]).
  cbn [rbind]. reflexivity.
Qed.

(** On a store of equal weights, a legal move is considered with the value
    [sum8 x], whatever the board it leads to. *)
Lemma try_op_const (slide : board -> Z -> Z * board) (x : float)
    (before : board) (acc : best) (op r : Z) (b' : board) :
  slide before op = (r, b') -> r <> -1 -> ranks_below 25 b' ->
  try_op slide (const_net x) before acc op = consider acc op r (sum8 x) b'.
Proof.
  intros E Hr Hb. unfold try_op. rewrite E.
  destruct (Z.eqb_spec r (-1)) as [|_]; [contradiction|].
  rewrite (estimate_value_const x b' Hb). reflexivity.
Qed.

(** The single tile moves in every direction, and no move merges. *)
Lemma slide_dir_one_tile (d : direction) :
  exists b',
    slide_dir d one_tile = (b', 0) /\ board_eqb b' one_tile = false /\
    ranks_below 25 b'.
Proof.
  destruct d;
    match goal with
    | |- exists b', ?s = _ /\ _ =>
        let v := eval vm_compute in s in change s with v
    end;
    eexists; (split; [reflexivity|]); (split; [reflexivity|]);
    unfold ranks_below; repeat (apply List.Forall_cons; [lia|]);
    apply List.Forall_nil.
Qed.

Lemma slide_model_one_tile (dir_of : Z -> direction) (op : Z) :
  exists b', slide_model dir_of one_tile op = (0, b') /\ ranks_below 25 b'.
Proof.
  destruct (slide_dir_one_tile (dir_of op)) as (b' & E & Hne & Hb).
  exists b'. unfold slide_model. rewrite E, Hne. auto.
Qed.

Lemma sum8_sixteenth : sum8 sixteenth = half.
Proof. reflexivity. Qed.

(** With the value 1/2 the first move passes the initial bound, and every
    later move with the same reward and value passes the bound of the move
    kept before it, whose value was stored as the integer 0. *)
Lemma consider_half_first (op : Z) (b' : board) :
  consider best_init op 0 half b' = Ok (Best op 0 0 b').
Proof. reflexivity. Qed.

Lemma consider_half_next (op0 op : Z) (b0 b' : board) :
  consider (Best op0 0 0 b0) op 0 half b' = Ok (Best op 0 0 b').
Proof. reflexivity. Qed.

(** On a store where every weight is 1/16, whatever [board::slide] is: if
    the four directions are legal with reward 0, the move returned is the
    last one, 3. *)
Lemma take_action_equal_scores (slide : board -> Z -> Z * board) (p : player)
    (before b0 b1 b2 b3 : board) :
  net p = const_net sixteenth ->
  slide before 0 = (0, b0) -> slide before 1 = (0, b1) ->
  slide before 2 = (0, b2) -> slide before 3 = (0, b3) ->
  ranks_below 25 b0 -> ranks_below 25 b1 ->
  ranks_below 25 b2 -> ranks_below 25 b3 ->
  take_action slide p before
  = Ok (Slide 3, set_history p (history p ++ [Step 0 b3])).
Proof.
  intros Hnet E0 E1 E2 E3 Hb0 Hb1 Hb2 Hb3.
  unfold take_action. rewrite Hnet. cbn [for_ops].
  rewrite (try_op_const _ _ _ _ _ _ _ E0 ltac:(lia) Hb0).
  rewrite sum8_sixteenth, consider_half_first. cbn [rbind].
  rewrite (try_op_const _ _ _ _ _ _ _ E1 ltac:(lia) Hb1).
  rewrite sum8_sixteenth, consider_half_next. cbn [rbind].
  rewrite (try_op_const _ _ _ _ _ _ _ E2 ltac:(lia) Hb2).
  rewrite sum8_sixteenth, consider_half_next. cbn [rbind].
  rewrite (try_op_const _ _ _ _ _ _ _ E3 ltac:(lia) Hb3).
  rewrite sum8_sixteenth, consider_half_next. cbn [rbind].
  reflexivity.
Qed.

(** C1.  The choice is not the first maximum.  On the board with a single
    tile, with every weight 1/16, whatever the numbering of the directions:
    the four directions are legal and each has reward + value = 0 + 1/2, so
    the first of them, 0, is the one to choose; [take_action] returns the
    slide 3.  The value of the move kept is stored in an [int], 1/2 as 0,
    and each later move of equal score replaces it. *)
Theorem take_action_keeps_last_of_equals (dir_of : Z -> direction) :
  let slide := slide_model dir_of in
  let p := Player ∅ (const_net sixteenth) F32.zero [] in
  (forall op, In op [0; 1; 2; 3] ->
     exists b',
       slide one_tile op = (0, b') /\ legal slide one_tile op = true /\
       estimate_value (net p) b' = Ok half /\
       F32.add (F32.of_int 0) half = half) /\
  exists b3,
    slide one_tile 3 = (0, b3) /\
    take_action slide p one_tile
    = Ok (Slide 3, Player ∅ (const_net sixteenth) F32.zero [Step 0 b3]).
Proof.
  intros slide p. split.
  - intros op _.
    destruct (slide_model_one_tile dir_of op) as (b' & E & Hb).
    exists b'. split; [exact E|]. split; [|split].
    + unfold legal, slide. rewrite E. reflexivity.
    + unfold p. cbn [net]. rewrite (estimate_value_const _ _ Hb).
      rewrite sum8_sixteenth. reflexivity.
    + reflexivity.
  - destruct (slide_model_one_tile dir_of 0) as (b0 & E0 & Hb0).
    destruct (slide_model_one_tile dir_of 1) as (b1 & E1 & Hb1).
    destruct (slide_model_one_tile dir_of 2) as (b2 & E2 & Hb2).
    destruct (slide_model_one_tile dir_of 3) as (b3 & E3 & Hb3).
    exists b3. split; [exact E3|].
    exact (take_action_equal_scores slide p one_tile b0 b1 b2 b3 eq_refl
             E0 E1 E2 E3 Hb0 Hb1 Hb2 Hb3).
Qed.

Lemma net_get_biased_hit : net_get biased_net 0 625 = Ok half.
Proof.
  unfold net_get, biased_net, const_net.
  rewrite list_lookup_insert_eq by (rewrite length_replicate; lia).
  cbn [of_option rbind Z.ltb Z.compare].
  change (Z.to_nat 625) with 625%nat.
  rewrite list_lookup_insert_eq; [reflexivity|].
  rewrite length_replicate. unfold table_size. lia.
Qed.

Lemma net_get_biased_miss (i : nat) (f : Z) :
  (i < 8)%nat -> 0 <= f < table_size -> i <> 0%nat \/ f <> 625 ->
  net_get biased_net i f = Ok sixteenth.
Proof.
  intros Hi Hf Hne. unfold net_get, biased_net.
  destruct (Z.ltb_spec f 0) as [|_]; [lia|].
  destruct (Nat.eq_dec i 0%nat) as [-> | Hi0].
  - unfold const_net.
    rewrite list_lookup_insert_eq by (rewrite length_replicate; lia).
    cbn [of_option rbind].
    rewrite list_lookup_insert_ne by lia.
    rewrite lookup_replicate_2 by lia. reflexivity.
  - rewrite list_lookup_insert_ne by lia.
    unfold const_net. rewrite (lookup_replicate_2 8 _ i Hi).
    cbn [of_option rbind].
    rewrite lookup_replicate_2 by lia. reflexivity.
Qed.

Ltac eval_features :=
  repeat match goal with
    | |- context [extract_feature ?b ?p0 ?p1 ?p2 ?p3] =>
        let v := eval vm_compute in (extract_feature b p0 p1 p2 p3) in
        change (extract_feature b p0 p1 p2 p3) with v
    end.

Ltac eval_biased :=
  unfold estimate_value; eval_features;
  repeat first
    [ rewrite net_get_biased_hit
    | rewrite net_get_biased_miss by (unfold table_size; lia) ];
  cbn [rbind].

Lemma estimate_biased_up :
  estimate_value biased_net [0; 1; 0; 0; 0; 0; 0; 0; 0; 0; 0; 0; 0; 0; 0; 0]
  = Ok fifteen_sixteenths.
Proof. eval_biased. reflexivity. Qed.

Lemma estimate_biased_right :
  estimate_value biased_net [0; 0; 0; 0; 0; 0; 0; 1; 0; 0; 0; 0; 0; 0; 0; 0]
  = Ok half.
Proof. eval_biased. reflexivity. Qed.

Lemma estimate_biased_down :
  estimate_value biased_net [0; 0; 0; 0; 0; 0; 0; 0; 0; 0; 0; 0; 0; 1; 0; 0]
  = Ok half.
Proof. eval_biased. reflexivity. Qed.

Lemma estimate_biased_left :
  estimate_value biased_net [0; 0; 0; 0; 1; 0; 0; 0; 0; 0; 0; 0; 0; 0; 0; 0]
  = Ok half.
Proof. eval_biased. reflexivity. Qed.

Lemma consider_first_15_16 (op : Z) (b' : board) :
  consider best_init op 0 fifteen_sixteenths b' = Ok (Best op 0 0 b').
Proof. reflexivity. Qed.

(** A strictly better move is not kept either.  In the numbering of the
    framework, on the board with a single tile and the store [biased_net]:
    the slide 0 (up) has reward + value = 15/16, the three others 1/2;
    [take_action] returns the slide 3. *)
Lemma take_action_discards_better_move :
  let slide := slide_model framework_dirs in
  let p := Player ∅ biased_net F32.zero [] in
  let b0 := [0; 1; 0; 0; 0; 0; 0; 0; 0; 0; 0; 0; 0; 0; 0; 0] in
  let b3 := [0; 0; 0; 0; 1; 0; 0; 0; 0; 0; 0; 0; 0; 0; 0; 0] in
  slide one_tile 0 = (0, b0) /\ slide one_tile 3 = (0, b3) /\
  estimate_value (net p) b0 = Ok fifteen_sixteenths /\
  estimate_value (net p) b3 = Ok half /\
  take_action slide p one_tile
  = Ok (Slide 3, Player ∅ biased_net F32.zero [Step 0 b3]).
Proof.
  intros slide p b0 b3.
  split; [reflexivity|]. split; [reflexivity|].
  split; [exact estimate_biased_up|]. split; [exact estimate_biased_left|].
  unfold take_action, p, slide. cbn [net for_ops]. unfold try_op.
  change (slide_model framework_dirs one_tile 0) with (0, b0).
  change (slide_model framework_dirs one_tile 1)
    with (0, [0; 0; 0; 0; 0; 0; 0; 1; 0; 0; 0; 0; 0; 0; 0; 0]).
  change (slide_model framework_dirs one_tile 2)
    with (0, [0; 0; 0; 0; 0; 0; 0; 0; 0; 0; 0; 0; 0; 1; 0; 0]).
  change (slide_model framework_dirs one_tile 3) with (0, b3).
  cbv iota beta. change (0 =? -1) with false. cbv iota.
  unfold b0, b3.
  rewrite estimate_biased_up. cbn [rbind].
  rewrite consider_first_15_16. cbn [rbind].
  rewrite estimate_biased_right. cbn [rbind].
  rewrite consider_half_next. cbn [rbind].
  rewrite estimate_biased_down. cbn [rbind].
  rewrite consider_half_next. cbn [rbind].
  rewrite estimate_biased_left. cbn [rbind].
  rewrite consider_half_next. cbn [rbind].
  reflexivity.
Qed.

(** Without a legal move the loop keeps its initial locals: the history is
    left as it was and [action::slide(-1)] is returned. *)
Lemma take_action_no_legal_move (slide : board -> Z -> Z * board) (p : player)
    (before : board) :
  (forall op, In op [0; 1; 2; 3] -> legal slide before op = false) ->
  take_action slide p before = Ok (Slide (-1), p).
Proof.
  intros Hall.
  assert (Hop : forall acc op, In op [0; 1; 2; 3] ->
                               try_op slide (net p) before acc op = Ok acc).
  { intros acc op Hin. specialize (Hall op Hin). unfold legal in Hall.
    unfold try_op. destruct (slide before op) as [r b']. simpl in Hall.
    destruct (r =? -1); [reflexivity | discriminate]. }
  unfold take_action. cbn [for_ops].
  do 4 (rewrite Hop by (simpl; tauto); cbn [rbind]).
  reflexivity.
Qed.

Lemma try_op_kept (slide : board -> Z -> Z * board) (net : list weight)
    (before : board) (acc acc' : best) (op : Z) :
  In op [0; 1; 2; 3] -> kept slide before acc ->
  try_op slide net before acc op = Ok acc' -> kept slide before acc'.
Proof.
  intros Hop Hacc. unfold try_op.
  destruct (slide before op) as [r b'] eqn:E.
  destruct (Z.eqb_spec r (-1)) as [|Hr].
  - intros [= <-]. exact Hacc.
  - intros H. apply rbind_ok_inv in H. destruct H as (value & _ & H).
    unfold consider in H.
    apply rbind_ok_inv in H. destruct H as (bound & _ & H).
    destruct (F32.gt _ _).
    + apply rbind_ok_inv in H. destruct H as (v & _ & H).
      injection H as <-. right. cbn [best_op best_reward best_after]. auto.
    + injection H as <-. exact Hacc.
Qed.

Lemma for_ops_kept (slide : board -> Z -> Z * board) (net : list weight)
    (before : board) (ops : list Z) :
  (forall op, In op ops -> In op [0; 1; 2; 3]) ->
  forall acc acc',
    kept slide before acc ->
    for_ops slide net before acc ops = Ok acc' -> kept slide before acc'.
Proof.
  induction ops as [|op ops IH]; intros Hops acc acc' Hacc H.
  - injection H as <-. exact Hacc.
  - cbn [for_ops] in H. apply rbind_ok_inv in H. destruct H as (acc1 & H1 & H).
    apply (IH (fun o Ho => Hops o (or_intror Ho)) acc1 acc'); [|exact H].
    exact (try_op_kept slide net before acc acc1 op
             (Hops op (or_introl eq_refl)) Hacc H1).
Qed.

(** What [take_action] returns, when it returns: [action::slide(-1)] with
    the history as it was, or the slide of a legal move among the four with
    the reward and the board of that move appended to the history. *)
Lemma take_action_sound (slide : board -> Z -> Z * board) (p p' : player)
    (before : board) (a : action) :
  take_action slide p before = Ok (a, p') ->
  (a = Slide (-1) /\ p' = p) \/
  (exists op r b',
     In op [0; 1; 2; 3] /\ slide before op = (r, b') /\ r <> -1 /\
     a = Slide op /\ p' = set_history p (history p ++ [Step r b'])).
Proof.
  unfold take_action. intros H.
  apply rbind_ok_inv in H. destruct H as (b & Hb & H).
  injection H as <- <-.
  assert (K : kept slide before b).
  { apply (for_ops_kept slide (net p) before [0; 1; 2; 3] (fun _ H => H)
             best_init b); [left; reflexivity | exact Hb]. }
  destruct K as [-> | (Hin & Hs & Hr)].
  - left. split; reflexivity.
  - right. exists (best_op b), (best_reward b), (best_after b).
    repeat split; try assumption.
    destruct (Z.eqb_spec (best_op b) (-1)) as [E | _]; [|reflexivity].
    rewrite E in Hin. cbn [In] in Hin. lia.
Qed.

Lemma sum8_minus_25000 : sum8 (F32.of_int (-25000)) = F32.of_int (-200000).
Proof. reflexivity. Qed.

(** A value of -200000 does not pass the initial bound -1 + -99999. *)
Lemma consider_below_bound (op : Z) (b' : board) :
  consider best_init op 0 (F32.of_int (-200000)) b' = Ok best_init.
Proof. reflexivity. Qed.

(** On a store where every weight is -25000, whatever [board::slide] is: if
    the four directions are legal with reward 0, no move is kept. *)
Lemma take_action_low_scores (slide : board -> Z -> Z * board) (p : player)
    (before b0 b1 b2 b3 : board) :
  net p = const_net (F32.of_int (-25000)) ->
  slide before 0 = (0, b0) -> slide before 1 = (0, b1) ->
  slide before 2 = (0, b2) -> slide before 3 = (0, b3) ->
  ranks_below 25 b0 -> ranks_below 25 b1 ->
  ranks_below 25 b2 -> ranks_below 25 b3 ->
  take_action slide p before = Ok (Slide (-1), p).
Proof.
  intros Hnet E0 E1 E2 E3 Hb0 Hb1 Hb2 Hb3.
  unfold take_action. rewrite Hnet. cbn [for_ops].
  rewrite (try_op_const _ _ _ _ _ _ _ E0 ltac:(lia) Hb0).
  rewrite sum8_minus_25000, consider_below_bound. cbn [rbind].
  rewrite (try_op_const _ _ _ _ _ _ _ E1 ltac:(lia) Hb1).
  rewrite sum8_minus_25000, consider_below_bound. cbn [rbind].
  rewrite (try_op_const _ _ _ _ _ _ _ E2 ltac:(lia) Hb2).
  rewrite sum8_minus_25000, consider_below_bound. cbn [rbind].
  rewrite (try_op_const _ _ _ _ _ _ _ E3 ltac:(lia) Hb3).
  rewrite sum8_minus_25000, consider_below_bound. cbn [rbind].
  reflexivity.
Qed.

(** C2.  A legal move does not always give a step and a slide.  On the board
    with a single tile, with every weight -25000, whatever the numbering of
    the directions: the four directions are legal, yet [take_action] leaves
    the history as it was and returns [action::slide(-1)], as it does when no
    move is legal.  No score of 0 + -200000 passes the initial bound
    -1 + -99999 of the loop. *)
Theorem take_action_ignores_legal_moves (dir_of : Z -> direction) :
  let slide := slide_model dir_of in
  let p := Player ∅ (const_net (F32.of_int (-25000))) F32.zero [] in
  (forall op, In op [0; 1; 2; 3] -> legal slide one_tile op = true) /\
  take_action slide p one_tile = Ok (Slide (-1), p).
Proof.
  intros slide p. split.
  - intros op _.
    destruct (slide_model_one_tile dir_of op) as (b' & E & Hb).
    unfold legal, slide. rewrite E. reflexivity.
  - destruct (slide_model_one_tile dir_of 0) as (b0 & E0 & Hb0).
    destruct (slide_model_one_tile dir_of 1) as (b1 & E1 & Hb1).
    destruct (slide_model_one_tile dir_of 2) as (b2 & E2 & Hb2).
    destruct (slide_model_one_tile dir_of 3) as (b3 & E3 & Hb3).
    exact (take_action_low_scores slide p one_tile b0 b1 b2 b3 eq_refl
             E0 E1 E2 E3 Hb0 Hb1 Hb2 Hb3).
Qed.

(** ** Files of weights *)

(** C9.  [load_weights] terminates the process exactly when the file cannot
    be opened, and [save_weights] exactly when the output file cannot be
    opened; the status of the exit, -1, reaches the parent as 255, which is
    not 0.  When the file opens, neither calls [std::exit]. *)
Theorem weights_file_unopenable_is_fatal
    (read_weight : weight -> list byte -> weight * list byte)
    (write_weight : weight -> list byte)
    (fs : filesys) (p : player) (path : string) :
  (files fs !! path = None <->
   exists code, load_weights read_weight fs p path = Err (Exit code)) /\
  (can_write fs path = false <->
   exists code, save_weights write_weight fs p path = Err (Exit code)) /\
  (files fs !! path = None ->
   load_weights read_weight fs p path = Err (Exit (-1))) /\
  (can_write fs path = false ->
   save_weights write_weight fs p path = Err (Exit (-1))) /\
  (can_write fs path = true -> is_ok (save_weights write_weight fs p path)) /\
  exit_status (-1) = 255.
Proof.
  unfold load_weights, save_weights.
  repeat split.
  - intros ->. exists (-1). reflexivity.
  - intros [code H]. destruct (files fs !! path) as [bs|]; [|reflexivity].
    destruct (read_u32 bs) as [[size rest]|]; simpl in H; discriminate.
  - intros ->. exists (-1). reflexivity.
  - intros [code H]. destruct (can_write fs path); [discriminate | reflexivity].
  - intros ->. reflexivity.
  - intros ->. reflexivity.
  - intros ->. simpl. eexists. reflexivity.
Qed.

(** ** A player without weight tables *)

Lemma estimate_value_no_table (after : board) :
  estimate_value [] after = Err OutOfBounds.
Proof. reflexivity. Qed.

Lemma try_op_no_table (slide : board -> Z -> Z * board) (before : board)
    (acc : best) (op : Z) :
  try_op slide [] before acc op
  = if legal slide before op then Err OutOfBounds else Ok acc.
Proof.
  unfold try_op, legal. destruct (slide before op) as [r b']. simpl.
  destruct (r =? -1); reflexivity.
Qed.

Lemma take_action_no_table (slide : board -> Z -> Z * board) (p : player)
    (before : board) :
  net p = [] ->
  (exists op, In op [0; 1; 2; 3] /\ legal slide before op = true) ->
  take_action slide p before = Err OutOfBounds.
Proof.
  intros Hnet (op & Hin & Hop).
  unfold take_action. rewrite Hnet. cbn [for_ops].
  rewrite try_op_no_table.
  destruct (legal slide before 0) eqn:L0; [reflexivity|]. cbn [rbind].
  rewrite try_op_no_table.
  destruct (legal slide before 1) eqn:L1; [reflexivity|]. cbn [rbind].
  rewrite try_op_no_table.
  destruct (legal slide before 2) eqn:L2; [reflexivity|]. cbn [rbind].
  rewrite try_op_no_table.
  destruct (legal slide before 3) eqn:L3; [reflexivity|]. cbn [rbind].
  simpl in Hin. destruct Hin as [<- | [<- | [<- | [<- | []]]]]; congruence.
Qed.

Lemma close_episode_no_table (p : player) :
  net p = [] -> history p <> [] ->
  F32.eq (alpha p) (F32.of_int 0) = false ->
  close_episode p = Err OutOfBounds.
Proof.
  intros Hnet Hne Halpha. unfold close_episode.
  destruct (history p) as [|s0 rest] eqn:Hh; [contradiction|].
  rewrite Halpha, Hnet.
  destruct (_ !! _) as [last|]; reflexivity.
Qed.

(** C10.  A player constructed from arguments with neither an [init] nor a
    [load] key has no weight table.  Every later [take_action] on a board
    with a legal move, and every later [close_episode] with a learning rate
    other than 0 and a history that is not empty, reaches the lookup of
    [net[0]] in [estimate_value] and is outside the vector. *)
Theorem player_without_init_or_load
    (read_weight : weight -> list byte -> weight * list byte)
    (stod : string -> option float)
    (slide : board -> Z -> Z * board)
    (fs : filesys) (args : string) (p : player) :
  agent_new (String.append "name=dummy role=player " args) !! "init"%string = None ->
  agent_new (String.append "name=dummy role=player " args) !! "load"%string = None ->
  player_new read_weight stod fs args = Ok p ->
  net p = [] /\
  (forall b, estimate_value (net p) b = Err OutOfBounds) /\
  (forall before hist,
     (exists op, In op [0; 1; 2; 3] /\ legal slide before op = true) ->
     take_action slide (set_history p hist) before = Err OutOfBounds) /\
  (forall hist,
     hist <> [] -> F32.eq (alpha p) (F32.of_int 0) = false ->
     close_episode (set_history p hist) = Err OutOfBounds).
Proof.
  intros Hinit Hload Hnew.
  assert (Hnet : net p = []).
  { unfold player_new in Hnew. rewrite Hinit, Hload in Hnew.
    cbn [rbind] in Hnew.
    destruct (agent_new _ !! "alpha"%string) as [value|].
    - destruct (stod value) as [a|]; [|discriminate].
      injection Hnew as <-. reflexivity.
    - injection Hnew as <-. reflexivity. }
  split; [exact Hnet|]. split; [|split].
  - intros b. rewrite Hnet. apply estimate_value_no_table.
  - intros before hist Hlegal.
    apply take_action_no_table; [exact Hnet | exact Hlegal].
  - intros hist Hne Halpha.
    apply close_episode_no_table; [exact Hnet | exact Hne | exact Halpha].
Qed.

Lemma player_without_init_or_load_witness :
  let p := Player (agent_new "name=dummy role=player alpha=0.0625") []
             sixteenth [] in
  net p = [] /\
  (forall b, estimate_value (net p) b = Err OutOfBounds) /\
  (forall before hist,
     (exists op, In op [0; 1; 2; 3] /\
                 legal (slide_model framework_dirs) before op = true) ->
     take_action (slide_model framework_dirs) (set_history p hist) before
     = Err OutOfBounds) /\
  (forall hist,
     hist <> [] -> F32.eq (alpha p) (F32.of_int 0) = false ->
     close_episode (set_history p hist) = Err OutOfBounds).
Proof.
  intros p.
  apply (player_without_init_or_load
           (fun w bs => (w, bs)) (fun _ => Some sixteenth)
           (slide_model framework_dirs) (Filesys ∅ (fun _ => false))
           "alpha=0.0625" p).
  - vm_compute. reflexivity.
  - vm_compute. reflexivity.
  - vm_compute. reflexivity.
Defined.

(** ** The random environment *)

Section Orders.

Context {A : Type} `{EqDecision A}.
Implicit Types (x : A) (l : list A).

Lemma NoDup_interleave x l : x ∉ l -> NoDup (interleave x l).
Proof.
  induction l as [|y l IH]; intros Hx; simpl.
  - apply NoDup_singleton.
  - apply not_elem_of_cons in Hx. destruct Hx as [Hxy Hx].
    apply NoDup_cons. split.
    + intros Hin. apply list_elem_of_fmap in Hin.
      destruct Hin as (k & Hk & _). congruence.
    + apply NoDup_fmap_2_strong; [|exact (IH Hx)].
      intros k1 k2 _ _ E. congruence.
Qed.

(** What is left of an interleaving of [x] in [l] when [x] is taken out. *)
Lemma interleave_without x l l' :
  x ∉ l -> l' ∈ interleave x l ->
  base.filter (fun y => y <> x) l' = l.
Proof.
  intros Hx Hin. apply elem_of_interleave in Hin.
  destruct Hin as (l1 & l2 & -> & ->).
  apply not_elem_of_app in Hx. destruct Hx as [H1 H2].
  rewrite filter_app, filter_cons_False by (intros H; apply H; reflexivity).
  f_equal.
  - induction l1 as [|z l1 IH]; [reflexivity|].
    apply not_elem_of_cons in H1. destruct H1 as [Hz H1].
    rewrite filter_cons_True by congruence. f_equal. exact (IH H1).
  - induction l2 as [|z l2 IH]; [reflexivity|].
    apply not_elem_of_cons in H2. destruct H2 as [Hz H2].
    rewrite filter_cons_True by congruence. f_equal. exact (IH H2).
Qed.

Lemma NoDup_permutations l : NoDup l -> NoDup (permutations l).
Proof.
  induction 1 as [|x l Hx Hl IH]; simpl.
  - apply NoDup_singleton.
  - assert (Hk : forall k, k ∈ permutations l -> x ∉ k).
    { intros k Hk Hin. apply permutations_Permutation in Hk.
      apply Hx. rewrite Hk. exact Hin. }
    apply NoDup_bind.
    + intros k1 k2 y H1 H2 Hy1 Hy2.
      rewrite <- (interleave_without x k1 y (Hk k1 H1) Hy1).
      exact (interleave_without x k2 y (Hk k2 H2) Hy2).
    + intros k Hin. apply NoDup_interleave. exact (Hk k Hin).
    + exact IH.
Qed.

End Orders.

(** *** Counting *)

Lemma filter_prod_length {A B : Type} (P : A -> bool) (Q : B -> bool)
    (la : list A) (lb : list B) :
  length (List.filter (fun d => P (fst d) && Q (snd d)) (list_prod la lb))
  = (length (List.filter P la) * length (List.filter Q lb))%nat.
Proof.
  induction la as [|a la IH]; [reflexivity|].
  cbn [list_prod List.filter]. rewrite List.filter_app, length_app, IH.
  assert (E : length (List.filter (fun d => P (fst d) && Q (snd d))
                        (map (fun y => (a, y)) lb))
              = if P a then length (List.filter Q lb) else 0%nat).
  { clear IH. induction lb as [|b lb IHb]; [destruct (P a); reflexivity|].
    cbn [map List.filter fst snd].
    destruct (P a); cbn [andb].
    - destruct (Q b); cbn [length]; rewrite IHb; reflexivity.
    - exact IHb. }
  rewrite E. destruct (P a); cbn [length Nat.mul Nat.add]; reflexivity.
Qed.

Lemma list_sum_cons (x : nat) (l : list nat) :
  list_sum (x :: l) = (x + list_sum l)%nat.
Proof. reflexivity. Qed.

Lemma list_sum_add {A : Type} (f h : A -> nat) (l : list A) :
  list_sum (map (fun a => (f a + h a)%nat) l)
  = (list_sum (map f l) + list_sum (map h l))%nat.
Proof.
  induction l as [|a l IH]; [reflexivity|].
  cbn [map]. rewrite !list_sum_cons, IH. lia.
Qed.

Lemma list_sum_const {A : Type} (c : nat) (l : list A) :
  list_sum (map (fun _ => c) l) = (length l * c)%nat.
Proof.
  induction l as [|a l IH]; [reflexivity|]. cbn [map length Nat.mul]. rewrite list_sum_cons, IH. reflexivity.
Qed.

Lemma list_sum_indicator (d0 : Z) (D : list Z) :
  NoDup D -> In d0 D ->
  list_sum (map (fun d => if d0 =? d then 1%nat else 0%nat) D) = 1%nat.
Proof.
  induction 1 as [|d D Hd HD IH]; intros Hin; [destruct Hin|].
  cbn [map]; rewrite ?list_sum_cons.
  destruct (Z.eqb_spec d0 d) as [-> | Hne].
  - assert (E : list_sum (map (fun d' => if d =? d' then 1%nat else 0%nat) D) = 0%nat).
    { clear IH HD Hin. induction D as [|e D IHD]; [reflexivity|].
      cbn [map]; rewrite ?list_sum_cons.
      destruct (Z.eqb_spec d e) as [-> | _].
      - exfalso. apply Hd. apply list_elem_of_In. left. reflexivity.
      - apply IHD. intros H. apply Hd. apply list_elem_of_In.
        right. apply list_elem_of_In. exact H. }
    rewrite E. reflexivity.
  - destruct Hin as [-> | Hin]; [contradiction|].
    rewrite (IH Hin). reflexivity.
Qed.

(** A list whose elements each fall in one class of [D] is as long as its
    classes together. *)
Lemma length_by_class {A : Type} (g : A -> option Z) (D : list Z) (L : list A) :
  NoDup D ->
  (forall a, In a L -> exists d, g a = Some d /\ In d D) ->
  list_sum
    (map (fun d =>
            length (List.filter
                      (fun a => match g a with Some q => q =? d | None => false end)
                      L))
       D)
  = length L.
Proof.
  intros HD. induction L as [|a L IH]; intros Hall.
  - cbn [List.filter length]. rewrite list_sum_const. lia.
  - destruct (Hall a (or_introl eq_refl)) as (d0 & Hg & Hd0).
    specialize (IH (fun a' H => Hall a' (or_intror H))).
    rewrite (map_ext _
               (fun d => ((if (d0 =? d)%Z then 1 else 0)
                          + length (List.filter
                                      (fun a => match g a with
                                                | Some q => (q =? d)%Z
                                                | None => false
                                                end) L))%nat)).
    + rewrite list_sum_add, IH, (list_sum_indicator d0 D HD Hd0). reflexivity.
    + intros d. cbn [List.filter]. rewrite Hg.
      destruct (d0 =? d); reflexivity.
Qed.

Lemma NoDup_map_injective {A B : Type} (f : A -> B) (l : list A) :
  (forall x y, f x = f y -> x = y) -> NoDup l -> NoDup (map f l).
Proof.
  intros Hinj. induction 1 as [|x l Hx Hl IH]; cbn [map].
  - apply NoDup_nil_2.
  - apply NoDup_cons_2; [|exact IH].
    intros Hin. apply list_elem_of_In, in_map_iff in Hin.
    destruct Hin as (y & E & Hy). apply Hinj in E. subst y.
    apply Hx, list_elem_of_In. exact Hy.
Qed.

(** *** The scan and the exchange of two empty cells *)

Lemma rndenv_scan_first (after : board) (space : list Z) (popup : Z) :
  rndenv_scan after space popup
  = match first_empty after space with
    | Some pos => Place pos (tile_of popup)
    | None => NoAction
    end.
Proof.
  unfold first_empty.
  induction space as [|pos space IH]; [reflexivity|].
  cbn [rndenv_scan find].
  destruct (at_pos after pos =? 0); [reflexivity | exact IH].
Qed.

Lemma exchange_involutive (p q x : Z) : exchange p q (exchange p q x) = x.
Proof.
  unfold exchange.
  destruct (Z.eqb_spec x p) as [-> | Hp].
  - destruct (Z.eqb_spec q p) as [-> | _]; [reflexivity|].
    rewrite Z.eqb_refl. reflexivity.
  - destruct (Z.eqb_spec x q) as [-> | Hq].
    + rewrite Z.eqb_refl. reflexivity.
    + destruct (Z.eqb_spec x p); [contradiction|].
      destruct (Z.eqb_spec x q); [contradiction|]. reflexivity.
Qed.

Lemma exchange_left (p q : Z) : exchange p q p = q.
Proof. unfold exchange. rewrite Z.eqb_refl. reflexivity. Qed.

Lemma exchange_in (p q x : Z) (space : list Z) :
  In p space -> In q space -> In x space -> In (exchange p q x) space.
Proof.
  intros Hp Hq Hx. unfold exchange.
  destruct (x =? p); [exact Hq|]. destruct (x =? q); [exact Hp | exact Hx].
Qed.

Lemma map_exchange_involutive (p q : Z) (l : list Z) :
  map (exchange p q) (map (exchange p q) l) = l.
Proof.
  rewrite map_map. rewrite <- (map_id l) at 2.
  apply map_ext. intros x. apply exchange_involutive.
Qed.

(** Exchanging two positions of [space] in an order of [space] gives an
    order of [space]. *)
Lemma exchange_order (p q : Z) (space l : list Z) :
  NoDup space -> In p space -> In q space ->
  Permutation space l -> Permutation space (map (exchange p q) l).
Proof.
  intros Hnd Hp Hq Hl.
  transitivity (map (exchange p q) space); [|apply Permutation_map; exact Hl].
  apply NoDup_Permutation; [exact Hnd | |].
  - apply NoDup_map_injective; [|exact Hnd].
    intros x y E.
    rewrite <- (exchange_involutive p q x), E. apply exchange_involutive.
  - intros x. rewrite !list_elem_of_In. split.
    + intros Hx. apply in_map_iff. exists (exchange p q x). split.
      * apply exchange_involutive.
      * apply exchange_in; assumption.
    + intros Hx. apply in_map_iff in Hx. destruct Hx as (y & <- & Hy).
      apply exchange_in; assumption.
Qed.

(** Between two empty cells the exchange carries the first empty cell. *)
Lemma first_empty_exchange (after : board) (p q : Z) (l : list Z) :
  at_pos after p = 0 -> at_pos after q = 0 ->
  first_empty after (map (exchange p q) l)
  = option_map (exchange p q) (first_empty after l).
Proof.
  intros Hp Hq. unfold first_empty.
  induction l as [|x l IH]; [reflexivity|].
  cbn [map find].
  assert (E : (at_pos after (exchange p q x) =? 0) = (at_pos after x =? 0)).
  { unfold exchange.
    destruct (Z.eqb_spec x p) as [-> | _]; [rewrite Hp, Hq; reflexivity|].
    destruct (Z.eqb_spec x q) as [-> | _]; [rewrite Hp, Hq; reflexivity|].
    reflexivity. }
  rewrite E. destruct (at_pos after x =? 0); [reflexivity | exact IH].
Qed.

Lemma orders_to_le (after : board) (space : list Z) (p q : Z) :
  NoDup space -> In p space -> In q space ->
  at_pos after p = 0 -> at_pos after q = 0 ->
  (length (orders_to after space p) <= length (orders_to after space q))%nat.
Proof.
  intros Hnd Hp Hq Ep Eq.
  rewrite <- (length_map (map (exchange p q)) (orders_to after space p)).
  apply NoDup_incl_length.
  - apply NoDup_ListNoDup, NoDup_map_injective.
    + intros l1 l2 E.
      rewrite <- (map_exchange_involutive p q l1), E.
      apply map_exchange_involutive.
    + unfold orders_to. apply NoDup_ListNoDup, List.NoDup_filter, NoDup_ListNoDup.
      apply NoDup_permutations. exact Hnd.
  - intros l' Hin. apply in_map_iff in Hin. destruct Hin as (l & <- & Hl).
    unfold orders_to in *. apply filter_In in Hl. destruct Hl as [Hl Hfirst].
    apply filter_In. split.
    + apply list_elem_of_In, permutations_Permutation.
      apply exchange_order; try assumption.
      apply permutations_Permutation, list_elem_of_In. exact Hl.
    + rewrite (first_empty_exchange after p q l Ep Eq).
      destruct (first_empty after l) as [x|]; [|discriminate].
      apply Z.eqb_eq in Hfirst. subst x. cbn [option_map].
      rewrite exchange_left. apply Z.eqb_refl.
Qed.

Lemma orders_to_eq (after : board) (space : list Z) (p q : Z) :
  NoDup space -> In p space -> In q space ->
  at_pos after p = 0 -> at_pos after q = 0 ->
  length (orders_to after space p) = length (orders_to after space q).
Proof.
  intros Hnd Hp Hq Ep Eq. apply Nat.le_antisymm.
  - apply orders_to_le; assumption.
  - apply orders_to_le; assumption.
Qed.

(** Each empty cell of [space] is the first empty cell of the same share of
    the orders of [space]. *)
Lemma orders_to_share (after : board) (space : list Z) (pos : Z) :
  NoDup space -> In pos space -> at_pos after pos = 0 ->
  (length (List.filter (fun x => (at_pos after x =? 0)%Z) space)
   * length (orders_to after space pos)
   = length (permutations space))%nat.
Proof.
  intros Hnd Hpos Epos.
  set (D := List.filter (fun x => at_pos after x =? 0) space).
  rewrite <- (length_by_class (first_empty after) D (permutations space)).
  - rewrite <- list_sum_const with (l := D). f_equal.
    apply map_ext_in. intros d Hd. unfold D in Hd.
    apply filter_In in Hd. destruct Hd as [Hd Ed]. apply Z.eqb_eq in Ed.
    exact (orders_to_eq after space pos d Hnd Hpos Hd Epos Ed).
  - apply NoDup_ListNoDup, List.NoDup_filter, NoDup_ListNoDup. exact Hnd.
  - intros l Hl. apply list_elem_of_In, permutations_Permutation in Hl.
    destruct (first_empty after l) as [d|] eqn:Hf.
    + exists d. split; [reflexivity|].
      unfold first_empty in Hf. apply find_some in Hf. destruct Hf as [Hd Ed].
      unfold D. apply filter_In. split; [|exact Ed].
      eapply Permutation_in; [symmetry; exact Hl | exact Hd].
    + exfalso. unfold first_empty in Hf.
      pose proof (find_none _ _ Hf pos) as Hn. cbv beta in Hn.
      rewrite Epos in Hn. discriminate Hn.
      eapply Permutation_in; [exact Hl | exact Hpos].
Qed.

Lemma filter_length_Permutation {A : Type} (f : A -> bool) (l l' : list A) :
  Permutation l l' -> length (List.filter f l) = length (List.filter f l').
Proof.
  induction 1 as [|x l l' _ IH|x y l|l l' l'' _ IH1 _ IH2].
  - reflexivity.
  - cbn [List.filter]. destruct (f x); cbn [length]; rewrite IH; reflexivity.
  - cbn [List.filter]. destruct (f x), (f y); reflexivity.
  - rewrite IH1. exact IH2.
Qed.

(** The draws that give [place(pos, tile)]: the orders whose first empty
    cell is [pos], with the numbers that give [tile]. *)
Lemma count_draws_place (after : board) (space : list Z) (pos tile : Z) :
  count_draws space after (Place pos tile)
  = (length (orders_to after space pos)
     * length (List.filter (fun k => (tile_of k =? tile)%Z) popup_values))%nat.
Proof.
  unfold count_draws, draws, orders_to.
  rewrite <- filter_prod_length. f_equal.
  apply List.filter_ext. intros [l k]. cbn [fst snd rndenv_take_action].
  rewrite rndenv_scan_first.
  destruct (first_empty after l) as [q|]; reflexivity.
Qed.

Lemma space_init_on_board (pos : Z) : In pos space_init -> on_board pos.
Proof.
  unfold space_init, on_board. cbn [In]. lia.
Qed.

Lemma NoDup_space_init : NoDup space_init.
Proof.
  apply NoDup_ListNoDup. unfold space_init.
  repeat (apply List.NoDup_cons; [cbn [In]; lia|]). apply List.NoDup_nil.
Qed.

(** C8.  [rndenv::take_action] answers [place(pos, tile)] on an empty cell
    [pos] of the board, with the tile 1 unless the number drawn is 0, and the
    default action when the board has no empty cell.  Over the draws of a
    call (all orders of the shuffle, all numbers 0..9, each equally likely),
    every empty cell is chosen on the same share 1/m of the draws, [m] being
    the number of empty cells, with tile 1 on 9 draws of 10 and tile 2 on 1
    of 10. *)
Theorem rndenv_places_on_empty_cell (after : board) (space : list Z) :
  Permutation space_init space ->
  (forall shuffled popup,
     Permutation space shuffled -> In popup popup_values ->
     (empty_cells after = [] /\
      fst (rndenv_take_action shuffled popup after) = NoAction) \/
     (exists pos,
        In pos (empty_cells after) /\ on_board pos /\ at_pos after pos = 0 /\
        fst (rndenv_take_action shuffled popup after)
        = Place pos (if popup =? 0 then 2 else 1))) /\
  (forall pos,
     In pos (empty_cells after) ->
     (count_draws space after (Place pos 1) * (10 * length (empty_cells after))
      = 9 * length (draws space))%nat /\
     (count_draws space after (Place pos 2) * (10 * length (empty_cells after))
      = 1 * length (draws space))%nat).
Proof.
  intros Hspace. split.
  - intros shuffled popup Hsh _.
    cbn [fst rndenv_take_action]. rewrite rndenv_scan_first.
    destruct (first_empty after shuffled) as [pos|] eqn:Hf.
    + right. exists pos. unfold first_empty in Hf.
      apply find_some in Hf. destruct Hf as [Hin Hz].
      assert (Hpos : In pos space_init).
      { eapply Permutation_in; [symmetry; exact Hspace|].
        eapply Permutation_in; [symmetry; exact Hsh | exact Hin]. }
      split; [|split; [|split]].
      * unfold empty_cells. apply filter_In. split; assumption.
      * apply space_init_on_board. exact Hpos.
      * apply Z.eqb_eq. exact Hz.
      * unfold tile_of. destruct (popup =? 0); reflexivity.
    + left. split; [|reflexivity].
      unfold first_empty in Hf. unfold empty_cells.
      destruct (List.filter _ space_init) as [|x rest] eqn:Hfil; [reflexivity|].
      exfalso.
      assert (Hx : In x (List.filter (fun pos => at_pos after pos =? 0) space_init))
        by (rewrite Hfil; left; reflexivity).
      apply filter_In in Hx. destruct Hx as [Hx Hz].
      rewrite (find_none _ _ Hf x) in Hz; [discriminate|].
      eapply Permutation_in; [exact Hsh|].
      eapply Permutation_in; [exact Hspace | exact Hx].
  - intros pos Hpos.
    unfold empty_cells in Hpos. apply filter_In in Hpos.
    destruct Hpos as [Hin Hz]. apply Z.eqb_eq in Hz.
    assert (Hnd : NoDup space).
    { apply NoDup_ListNoDup. eapply Permutation_NoDup; [exact Hspace|].
      apply NoDup_ListNoDup, NoDup_space_init. }
    pose proof (orders_to_share after space pos Hnd
                  (Permutation_in _ Hspace Hin) Hz) as Hshare.
    rewrite <- (filter_length_Permutation _ _ _ Hspace) in Hshare.
    fold (empty_cells after) in Hshare.
    rewrite !count_draws_place.
    unfold draws. rewrite length_prod, <- Hshare.
    change (length (List.filter (fun k => tile_of k =? 1) popup_values)) with 9%nat.
    change (length (List.filter (fun k => tile_of k =? 2) popup_values)) with 1%nat.
    change (length popup_values) with 10%nat.
    split; lia.
Qed.

Lemma rndenv_places_on_empty_cell_witness :
  (forall shuffled popup,
     Permutation space_init shuffled -> In popup popup_values ->
     (empty_cells one_tile = [] /\
      fst (rndenv_take_action shuffled popup one_tile) = NoAction) \/
     (exists pos,
        In pos (empty_cells one_tile) /\ on_board pos /\ at_pos one_tile pos = 0 /\
        fst (rndenv_take_action shuffled popup one_tile)
        = Place pos (if popup =? 0 then 2 else 1))) /\
  (forall pos,
     In pos (empty_cells one_tile) ->
     (count_draws space_init one_tile (Place pos 1)
      * (10 * length (empty_cells one_tile))
      = 9 * length (draws space_init))%nat /\
     (count_draws space_init one_tile (Place pos 2)
      * (10 * length (empty_cells one_tile))
      = 1 * length (draws space_init))%nat).
Proof.
  apply (rndenv_places_on_empty_cell one_tile space_init).
  reflexivity.
Defined.

(* ===================================================================== *)
(** * Further properties of the agents *)

(** ** The tokens of an argument string *)

Lemma append_cons (c : ascii) (s t : string) :
  String.append (String c s) t = String c (String.append s t).
Proof. reflexivity. Qed.

Lemma append_nil (t : string) : String.append EmptyString t = t.
Proof. reflexivity. Qed.

Lemma has_space_append (s t : string) :
  has_space (String.append s t) = has_space s || has_space t.
Proof.
  induction s as [|c s IH]; [reflexivity|].
  rewrite append_cons. cbn [has_space]. rewrite IH. apply orb_assoc.
Qed.

Lemma is_empty_append_char (s : string) (c : ascii) :
  is_empty (String.append s (String c EmptyString)) = false.
Proof. destruct s; reflexivity. Qed.

Lemma tokens_from_words (s cur : string) :
  has_space cur = false ->
  Forall (fun w => is_word w = true) (tokens_from cur s).
Proof.
  revert cur. induction s as [|c s IH]; intros cur Hcur; cbn [tokens_from].
  - destruct (is_empty cur) eqn:E; [apply List.Forall_nil|].
    apply List.Forall_cons; [|apply List.Forall_nil].
    unfold is_word. rewrite E, Hcur. reflexivity.
  - destruct (is_space c) eqn:Hc.
    + destruct (is_empty cur) eqn:E; [apply IH; reflexivity|].
      apply List.Forall_cons; [|apply IH; reflexivity].
      unfold is_word. rewrite E, Hcur. reflexivity.
    + apply IH. rewrite has_space_append. cbn [has_space].
      rewrite Hcur, Hc. reflexivity.
Qed.

(** X1.  Every token that the constructor of [agent] reads is a word: it is
    not empty and has no white space. *)
Theorem tokens_are_words (s : string) :
  Forall (fun w => is_word w = true) (tokens s).
Proof.
  apply tokens_from_words. reflexivity.
Qed.

Lemma append_assoc (s t u : string) :
  String.append (String.append s t) u = String.append s (String.append t u).
Proof.
  induction s as [|c s IH]; [reflexivity|].
  rewrite !append_cons. f_equal. exact IH.
Qed.

Lemma append_empty_r (s : string) : String.append s EmptyString = s.
Proof.
  induction s as [|c s IH]; [reflexivity|].
  rewrite !append_cons. f_equal. exact IH.
Qed.

(** A space ends the token being read. *)
Lemma tokens_from_app_space (s1 s2 cur : string) (c : ascii) :
  is_space c = true ->
  tokens_from cur (String.append s1 (String c s2))
  = tokens_from cur s1 ++ tokens s2.
Proof.
  intros Hc. revert cur. induction s1 as [|d s1 IH]; intros cur.
  - rewrite append_nil. cbn [tokens_from]. rewrite Hc. unfold tokens.
    destruct (is_empty cur); reflexivity.
  - rewrite append_cons. cbn [tokens_from].
    destruct (is_space d).
    + destruct (is_empty cur); [apply IH|].
      rewrite IH. reflexivity.
    + apply IH.
Qed.

Lemma tokens_app_space (s1 s2 : string) :
  tokens (String.append s1 (String " " s2)) = tokens s1 ++ tokens s2.
Proof.
  unfold tokens at 1 2. apply tokens_from_app_space. reflexivity.
Qed.

(** Reading a word after the token being read extends it. *)
Lemma tokens_from_word (w cur : string) :
  has_space w = false ->
  tokens_from cur w = [String.append cur w] \/
  (is_empty (String.append cur w) = true /\ tokens_from cur w = []).
Proof.
  revert cur. induction w as [|c w IH]; intros cur Hw.
  - cbn [tokens_from]. rewrite append_empty_r.
    destruct (is_empty cur); [right|left]; auto.
  - cbn [has_space] in Hw. apply orb_false_iff in Hw. destruct Hw as [Hc Hw].
    cbn [tokens_from]. rewrite Hc.
    destruct (IH (String.append cur (String c EmptyString)) Hw) as [E | [E _]].
    + left. rewrite E, append_assoc. reflexivity.
    + rewrite append_assoc in E. destruct cur; discriminate E.
Qed.

Lemma tokens_word (w : string) : is_word w = true -> tokens w = [w].
Proof.
  unfold is_word. intros H. apply andb_true_iff in H. destruct H as [Hne Hsp].
  apply negb_true_iff in Hne, Hsp.
  destruct (tokens_from_word w EmptyString Hsp) as [E | [E _]].
  - exact E.
  - rewrite append_nil in E. congruence.
Qed.

(** X2.  Round trip of the tokens: words joined by single spaces are read
    back as these words, in order. *)
Theorem tokens_of_joined_words (ws : list string) :
  Forall (fun w => is_word w = true) ws ->
  tokens (String.concat " " ws) = ws.
Proof.
  induction 1 as [|w ws Hw Hws IH]; [reflexivity|].
  destruct ws as [|w' ws'].
  - cbn [String.concat]. apply tokens_word. exact Hw.
  - change (String.concat " " (w :: w' :: ws'))
      with (String.append w (String " " (String.concat " " (w' :: ws')))).
    rewrite tokens_app_space, IH, (tokens_word w Hw). reflexivity.
Qed.

Lemma tokens_of_joined_words_witness :
  tokens (String.concat " " ["alpha=0.1"; "init"; "save=w.bin"]%string)
  = ["alpha=0.1"; "init"; "save=w.bin"]%string.
Proof.
  apply (tokens_of_joined_words ["alpha=0.1"; "init"; "save=w.bin"]%string).
  repeat (apply List.Forall_cons; [reflexivity|]). apply List.Forall_nil.
Defined.

(** ** The split of a token at its first ['='] *)

Lemma index_equals_cons (c : ascii) (s : string) :
  String.index 0 "=" (String c s)
  = if Ascii.eqb c "="%char then Some 0%nat
    else match String.index 0 "=" s with
         | Some n => Some (S n)
         | None => None
         end.
Proof.
  cbn [String.index String.prefix].
  destruct (ascii_dec "=" c) as [<- | Hne].
  - destruct s; reflexivity.
  - destruct (Ascii.eqb_spec c "="%char) as [-> | _]; [contradiction|].
    reflexivity.
Qed.

Lemma index_equals_none (s : string) :
  String.index 0 "=" s = None <-> has_equals s = false.
Proof.
  induction s as [|c s IH].
  - split; reflexivity.
  - rewrite index_equals_cons. cbn [has_equals].
    destruct (Ascii.eqb c "="%char); cbn [orb].
    + split; discriminate.
    + rewrite <- IH. destruct (String.index 0 "=" s); split; congruence.
Qed.

Lemma index_equals_append (k v : string) :
  has_equals k = false ->
  String.index 0 "=" (String.append k (String "=" v)) = Some (String.length k).
Proof.
  induction k as [|c k IH]; intros Hk.
  - rewrite append_nil, index_equals_cons. reflexivity.
  - cbn [has_equals] in Hk. apply orb_false_iff in Hk. destruct Hk as [Hc Hk].
    rewrite append_cons, index_equals_cons, Hc, (IH Hk). reflexivity.
Qed.

Lemma length_append (s t : string) :
  String.length (String.append s t) = (String.length s + String.length t)%nat.
Proof.
  induction s as [|c s IH]; [reflexivity|].
  rewrite append_cons. cbn [String.length]. rewrite IH. reflexivity.
Qed.

Lemma substring_all (s : string) : String.substring 0 (String.length s) s = s.
Proof.
  induction s as [|c s IH]; [reflexivity|].
  cbn [String.length String.substring]. rewrite IH. reflexivity.
Qed.

Lemma substring_head (k t : string) :
  String.substring 0 (String.length k) (String.append k t) = k.
Proof.
  induction k as [|c k IH].
  - rewrite append_nil. destruct t; reflexivity.
  - rewrite append_cons. cbn [String.length String.substring].
    rewrite IH. reflexivity.
Qed.

Lemma substring_tail (k t : string) (m : nat) :
  String.substring (String.length k) m (String.append k t)
  = String.substring 0 m t.
Proof.
  induction k as [|c k IH].
  - rewrite append_nil. reflexivity.
  - rewrite append_cons. cbn [String.length String.substring]. exact IH.
Qed.

Lemma substring_after (k v : string) (c : ascii) (m : nat) :
  String.substring (S (String.length k)) m (String.append k (String c v))
  = String.substring 0 m v.
Proof.
  induction k as [|d k IH].
  - rewrite append_nil. reflexivity.
  - rewrite append_cons. cbn [String.length]. exact IH.
Qed.

Lemma key_value_append (k v : string) :
  has_equals k = false ->
  key_value (String.append k (String "=" v)) = (k, v).
Proof.
  intros Hk. unfold key_value. rewrite (index_equals_append k v Hk).
  rewrite substring_head. f_equal.
  rewrite substring_after, length_append. cbn [String.length].
  replace (String.length k + S (String.length v) - S (String.length k))%nat
    with (String.length v) by lia.
  apply substring_all.
Qed.

(** X3.  A token [key=value] whose key has no ['='] splits into its key and
    its value; the value may have further ['='] and may be empty. *)
Theorem key_value_of_pair (k v : string) :
  has_equals k = false ->
  key_value (String.append k (String "=" v)) = (k, v).
Proof.
  exact (key_value_append k v).
Qed.

Lemma key_value_of_pair_witness :
  key_value (String.append "load" (String "=" "a=b.bin")) = ("load", "a=b.bin")%string.
Proof.
  apply (key_value_of_pair "load" "a=b.bin"). reflexivity.
Defined.

Lemma index_equals_split (s : string) (i : nat) :
  String.index 0 "=" s = Some i ->
  s = String.append (String.substring 0 i s)
        (String "=" (String.substring (S i) (String.length s - S i) s)) /\
  has_equals (String.substring 0 i s) = false.
Proof.
  revert i. induction s as [|c s IH]; intros i; [discriminate|].
  rewrite index_equals_cons.
  destruct (Ascii.eqb_spec c "="%char) as [-> | Hc].
  - intros [= <-]. cbn [String.length].
    replace (S (String.length s) - 1)%nat with (String.length s) by lia.
    cbn [String.substring]. rewrite append_nil, substring_all.
    split; reflexivity.
  - destruct (String.index 0 "=" s) as [n|]; [|discriminate].
    intros [= <-]. destruct (IH n eq_refl) as [E Hk].
    cbn [String.substring String.length]. rewrite append_cons.
    change (S (String.length s) - S (S n))%nat with (String.length s - S n)%nat.
    split; [f_equal; exact E|].
    cbn [has_equals]. rewrite Hk.
    destruct (Ascii.eqb_spec c "="%char); [contradiction | reflexivity].
Qed.

(** X4.  What [key_value] gives is a split of the token: with a ['='] in the
    token, the token is [key ++ "=" ++ value] and the key has no ['='];
    without one, the key and the value are both the whole token. *)
Theorem key_value_splits (pair : string) :
  (has_equals pair = true ->
   pair = String.append (fst (key_value pair)) (String "=" (snd (key_value pair))) /\
   has_equals (fst (key_value pair)) = false) /\
  (has_equals pair = false -> key_value pair = (pair, pair)).
Proof.
  unfold key_value. split.
  - intros H. destruct (String.index 0 "=" pair) as [i|] eqn:E.
    + exact (index_equals_split pair i E).
    + apply index_equals_none in E. congruence.
  - intros H. apply index_equals_none in H. rewrite H. reflexivity.
Qed.

(** ** The map of an agent *)

Lemma last_value_snoc (key : string) (pairs : list string) (pair : string) :
  last_value key (pairs ++ [pair])
  = if String.eqb (fst (key_value pair)) key then Some (snd (key_value pair))
    else last_value key pairs.
Proof.
  unfold last_value. rewrite map_app, rev_app_distr. cbn [map rev app List.find].
  destruct (String.eqb (fst (key_value pair)) key); reflexivity.
Qed.

Lemma set_pair_lookup (m : gmap string string) (pair key : string) :
  set_pair m pair !! key
  = if String.eqb (fst (key_value pair)) key then Some (snd (key_value pair))
    else m !! key.
Proof.
  unfold set_pair. destruct (key_value pair) as [k v]. cbn [fst snd].
  destruct (String.eqb_spec k key) as [-> | Hne].
  - apply lookup_insert_eq.
  - apply lookup_insert_ne. exact Hne.
Qed.

Lemma fold_set_pair_lookup (pairs : list string) (m : gmap string string)
    (key : string) :
  fold_left set_pair pairs m !! key
  = match last_value key pairs with
    | Some v => Some v
    | None => m !! key
    end.
Proof.
  induction pairs as [|pair pairs IH] using rev_ind; [reflexivity|].
  rewrite fold_left_app. cbn [fold_left].
  rewrite set_pair_lookup, last_value_snoc.
  destruct (String.eqb (fst (key_value pair)) key); [reflexivity | exact IH].
Qed.

Lemma agent_new_fold (args : string) :
  agent_new args = fold_left set_pair (tokens args) meta_defaults.
Proof.
  unfold agent_new, meta_defaults.
  change (String.append "name=unknown role=unknown " args)
    with (String.append "name=unknown"
            (String " " (String.append "role=unknown" (String " " args)))).
  rewrite !tokens_app_space, !fold_left_app. reflexivity.
Qed.

Lemma agent_new_last_value (args key : string) :
  agent_new args !! key
  = match last_value key (tokens args) with
    | Some v => Some v
    | None => meta_defaults !! key
    end.
Proof.
  rewrite agent_new_fold. apply fold_set_pair_lookup.
Qed.

(** X5.  In the map of an agent a key has the value of the last token of the
    arguments with this key; a key that no token of the arguments gives has
    its default, which exists for [name] and [role] only. *)
Theorem agent_new_lookup (args key : string) :
  agent_new args !! key
  = match last_value key (tokens args) with
    | Some v => Some v
    | None => meta_defaults !! key
    end.
Proof.
  exact (agent_new_last_value args key).
Qed.

(** X6.  [name()] and [role()] of an agent never throw, whatever the
    arguments; without a token for them in the arguments they are
    ["unknown"]. *)
Theorem name_and_role_defined (args : string) :
  is_ok (name (agent_new args)) /\ is_ok (role (agent_new args)) /\
  (last_value "name" (tokens args) = None -> name (agent_new args) = Ok "unknown"%string) /\
  (last_value "role" (tokens args) = None -> role (agent_new args) = Ok "unknown"%string).
Proof.
  unfold name, role, property. rewrite !agent_new_last_value.
  change (meta_defaults !! "name"%string) with (Some "unknown"%string).
  change (meta_defaults !! "role"%string) with (Some "unknown"%string).
  repeat split.
  - destruct (last_value "name" (tokens args)); eexists; reflexivity.
  - destruct (last_value "role" (tokens args)); eexists; reflexivity.
  - intros ->. reflexivity.
  - intros ->. reflexivity.
Qed.

(** X7.  After [notify("key=value")], for a key without ['='], [property]
    gives the value for this key and what it gave before for every other
    key. *)
Theorem property_after_notify (m : gmap string string) (k v : string) :
  has_equals k = false ->
  property (notify m (String.append k (String "=" v))) k = Ok v /\
  forall k', k' <> k ->
    property (notify m (String.append k (String "=" v))) k' = property m k'.
Proof.
  intros Hk. unfold property, notify, set_pair.
  rewrite (key_value_append k v Hk). split.
  - rewrite lookup_insert_eq. reflexivity.
  - intros k' Hne. rewrite lookup_insert_ne by congruence. reflexivity.
Qed.

Lemma property_after_notify_witness :
  property (notify ∅ (String.append "alpha" (String "=" "0.5"))) "alpha" = Ok "0.5"%string /\
  forall k', k' <> "alpha"%string ->
    property (notify ∅ (String.append "alpha" (String "=" "0.5"))) k' = property ∅ k'.
Proof.
  apply (property_after_notify ∅ "alpha" "0.5"). reflexivity.
Defined.

(** ** The construction of a player *)

Lemma estimate_value_fresh (b : board) :
  ranks_below 25 b -> estimate_value (const_net F32.zero) b = Ok F32.zero.
Proof.
  intros Hb. rewrite (estimate_value_const F32.zero b Hb). reflexivity.
Qed.

(** What the constructor leaves in the members other than [net]. *)
Lemma player_new_members
    (read_weight : weight -> list byte -> weight * list byte)
    (stod : string -> option float) (fs : filesys) (args : string) (p : player) :
  player_new read_weight stod fs args = Ok p ->
  meta p = agent_new (String.append "name=dummy role=player " args) /\
  history p = [] /\
  match meta p !! "alpha"%string with
  | Some value => stod value = Some (alpha p)
  | None => alpha p = F32.of_int 0
  end.
Proof.
  unfold player_new.
  set (m := agent_new (String.append "name=dummy role=player " args)).
  intros H.
  apply rbind_ok_inv in H. destruct H as (p1 & H1 & H).
  apply rbind_ok_inv in H. destruct H as (p2 & H2 & H).
  apply rbind_ok_inv in H. destruct H as (p3 & H3 & H).
  injection H as <-.
  assert (E1 : meta p1 = m /\ history p1 = [] /\ alpha p1 = F32.of_int 0).
  { destruct (m !! "init"%string); injection H1 as <-; auto. }
  destruct E1 as (M1 & Hi1 & A1).
  assert (E2 : meta p2 = m /\ history p2 = [] /\ alpha p2 = F32.of_int 0).
  { destruct (m !! "load"%string) as [path|].
    - unfold load_weights in H2.
      destruct (files fs !! path) as [bs|]; [|discriminate].
      apply rbind_ok_inv in H2. destruct H2 as ([size rest] & _ & H2).
      injection H2 as <-. auto.
    - injection H2 as <-. auto. }
  destruct E2 as (M2 & Hi2 & A2).
  destruct (m !! "alpha"%string) as [value|] eqn:Ea.
  - apply rbind_ok_inv in H3. destruct H3 as (a & Ha & H3).
    apply of_option_ok_inv in Ha. injection H3 as <-.
    cbn [meta history alpha set_alpha]. rewrite M2, Ea. auto.
  - injection H3 as <-. rewrite M2, Ea. auto.
Qed.

(** X8.  A player constructed with an [init] key and no [load] key has the
    history empty and the 8 tables of 25^4 entries, all 0: it estimates every
    board with ranks below 25 at 0, inside its tables. *)
Theorem player_new_with_init
    (read_weight : weight -> list byte -> weight * list byte)
    (stod : string -> option float) (fs : filesys) (args : string) (p : player) :
  is_Some (agent_new (String.append "name=dummy role=player " args) !! "init"%string) ->
  agent_new (String.append "name=dummy role=player " args) !! "load"%string = None ->
  player_new read_weight stod fs args = Ok p ->
  net p = const_net F32.zero /\ wf_net (net p) /\ history p = [] /\
  forall b, ranks_below 25 b -> estimate_value (net p) b = Ok F32.zero.
Proof.
  intros [info Hinit] Hload Hnew.
  destruct (player_new_members _ _ _ _ _ Hnew) as (_ & Hhist & _).
  assert (Hnet : net p = const_net F32.zero).
  { unfold player_new in Hnew. rewrite Hinit, Hload in Hnew.
    cbn [rbind] in Hnew.
    destruct (agent_new _ !! "alpha"%string) as [value|].
    - destruct (stod value) as [a|]; [|discriminate].
      injection Hnew as <-. cbn [net set_alpha].
      apply init_weights_const. reflexivity.
    - injection Hnew as <-. apply init_weights_const. reflexivity. }
  rewrite Hnet. repeat split.
  - apply wf_const_net.
  - exact Hhist.
  - intros b Hb. apply estimate_value_fresh. exact Hb.
Qed.

Lemma player_new_with_init_witness :
  let p := Player (agent_new "name=dummy role=player init") (const_net F32.zero)
             (F32.of_int 0) [] in
  net p = const_net F32.zero /\ wf_net (net p) /\ history p = [] /\
  forall b, ranks_below 25 b -> estimate_value (net p) b = Ok F32.zero.
Proof.
  intros p.
  apply (player_new_with_init (fun w bs => (w, bs)) (fun _ => None)
           (Filesys ∅ (fun _ => false)) "init" p).
  - exists "init"%string. vm_compute. reflexivity.
  - vm_compute. reflexivity.
  - unfold player_new.
    replace (agent_new (String.append "name=dummy role=player " "init") !! "init"%string)
      with (Some "init"%string) by (vm_compute; reflexivity).
    replace (agent_new (String.append "name=dummy role=player " "init") !! "load"%string)
      with (@None string) by (vm_compute; reflexivity).
    replace (agent_new (String.append "name=dummy role=player " "init") !! "alpha"%string)
      with (@None string) by (vm_compute; reflexivity).
    cbn [rbind]. unfold p. f_equal.
Defined.

(** X9.  A player constructed without an [alpha] key has the learning rate
    0: [close_episode] then leaves it as it is, tables included, whatever the
    history. *)
Theorem player_new_without_alpha
    (read_weight : weight -> list byte -> weight * list byte)
    (stod : string -> option float) (fs : filesys) (args : string) (p : player) :
  agent_new (String.append "name=dummy role=player " args) !! "alpha"%string = None ->
  player_new read_weight stod fs args = Ok p ->
  alpha p = F32.of_int 0 /\
  forall hist, close_episode (set_history p hist) = Ok (set_history p hist).
Proof.
  intros Halpha Hnew.
  destruct (player_new_members _ _ _ _ _ Hnew) as (Hmeta & _ & Ha).
  rewrite Hmeta, Halpha in Ha. split; [exact Ha|].
  intros hist. unfold close_episode. cbn [history set_history alpha].
  destruct hist; [reflexivity|]. rewrite Ha. reflexivity.
Qed.

Lemma player_new_without_alpha_witness :
  let p := Player (agent_new "name=dummy role=player ") [] (F32.of_int 0) [] in
  alpha p = F32.of_int 0 /\
  forall hist, close_episode (set_history p hist) = Ok (set_history p hist).
Proof.
  intros p.
  apply (player_new_without_alpha (fun w bs => (w, bs)) (fun _ => None)
           (Filesys ∅ (fun _ => false)) "" p).
  - vm_compute. reflexivity.
  - vm_compute. reflexivity.
Defined.

(** X10.  When the arguments have a [load] key whose file cannot be opened,
    the constructor of [player] ends the process with [std::exit(-1)],
    whatever the other keys are. *)
Theorem player_new_load_unopenable
    (read_weight : weight -> list byte -> weight * list byte)
    (stod : string -> option float) (fs : filesys) (args path : string) :
  agent_new (String.append "name=dummy role=player " args) !! "load"%string = Some path ->
  files fs !! path = None ->
  player_new read_weight stod fs args = Err (Exit (-1)).
Proof.
  intros Hload Hfile. unfold player_new. rewrite Hload.
  destruct (agent_new _ !! "init"%string); cbn [rbind];
    unfold load_weights; rewrite Hfile; reflexivity.
Qed.

Lemma player_new_load_unopenable_witness :
  player_new (fun w bs => (w, bs)) (fun _ => None) (Filesys ∅ (fun _ => false))
    "init load=weights.bin alpha=0.1"
  = Err (Exit (-1)).
Proof.
  apply (player_new_load_unopenable (fun w bs => (w, bs)) (fun _ => None)
           (Filesys ∅ (fun _ => false)) "init load=weights.bin alpha=0.1"
           "weights.bin").
  - vm_compute. reflexivity.
  - vm_compute. reflexivity.
Defined.

(** ** Features and boards *)

Lemma extract_feature_ranks (b b' : board) (p0 p1 p2 p3 q0 q1 q2 q3 : Z) :
  ranks_below 25 b -> ranks_below 25 b' ->
  extract_feature b p0 p1 p2 p3 = extract_feature b' q0 q1 q2 q3 ->
  at_pos b p0 = at_pos b' q0 /\ at_pos b p1 = at_pos b' q1 /\
  at_pos b p2 = at_pos b' q2 /\ at_pos b p3 = at_pos b' q3.
Proof.
  intros Hb Hb'.
  rewrite (proj1 (extract_feature_small b p0 p1 p2 p3 Hb)).
  rewrite (proj1 (extract_feature_small b' q0 q1 q2 q3 Hb')).
  unfold feature_spec.
  pose proof (at_pos_below 25 b p0 ltac:(lia) Hb).
  pose proof (at_pos_below 25 b p1 ltac:(lia) Hb).
  pose proof (at_pos_below 25 b p2 ltac:(lia) Hb).
  pose proof (at_pos_below 25 b p3 ltac:(lia) Hb).
  pose proof (at_pos_below 25 b' q0 ltac:(lia) Hb').
  pose proof (at_pos_below 25 b' q1 ltac:(lia) Hb').
  pose proof (at_pos_below 25 b' q2 ltac:(lia) Hb').
  pose proof (at_pos_below 25 b' q3 ltac:(lia) Hb').
  change (25 ^ 3) with 15625. change (25 ^ 2) with 625.
  lia.
Qed.

(** X11.  With ranks below 25 a feature is the base-25 number of four ranks
    and has no collision: equal features come from equal ranks, position by
    position. *)
Theorem extract_feature_injective (b b' : board) (p0 p1 p2 p3 q0 q1 q2 q3 : Z) :
  ranks_below 25 b -> ranks_below 25 b' ->
  extract_feature b p0 p1 p2 p3 = extract_feature b' q0 q1 q2 q3 ->
  at_pos b p0 = at_pos b' q0 /\ at_pos b p1 = at_pos b' q1 /\
  at_pos b p2 = at_pos b' q2 /\ at_pos b p3 = at_pos b' q3.
Proof.
  exact (extract_feature_ranks b b' p0 p1 p2 p3 q0 q1 q2 q3).
Qed.

Lemma extract_feature_injective_witness :
  at_pos one_tile 0 = at_pos one_tile 8 /\ at_pos one_tile 1 = at_pos one_tile 9 /\
  at_pos one_tile 2 = at_pos one_tile 10 /\ at_pos one_tile 3 = at_pos one_tile 11.
Proof.
  apply (extract_feature_injective one_tile one_tile 0 1 2 3 8 9 10 11).
  - apply ranks_below_one_tile. lia.
  - apply ranks_below_one_tile. lia.
  - reflexivity.
Defined.

(** X12.  The four row features tell boards apart: two boards of 16 cells
    with ranks below 25 and the same features in the tables 0 to 3 are the
    same board. *)
Theorem row_features_determine_board (b b' : board) :
  length b = 16%nat -> length b' = 16%nat ->
  ranks_below 25 b -> ranks_below 25 b' ->
  (forall i, (i < 4)%nat -> feature_at b i = feature_at b' i) ->
  b = b'.
Proof.
  intros Hl Hl' Hb Hb' Hf.
  pose proof (Hf 0%nat ltac:(lia)) as F0. pose proof (Hf 1%nat ltac:(lia)) as F1.
  pose proof (Hf 2%nat ltac:(lia)) as F2. pose proof (Hf 3%nat ltac:(lia)) as F3.
  destruct (feature_at_cases b) as (E0 & E1 & E2 & E3 & _).
  destruct (feature_at_cases b') as (E0' & E1' & E2' & E3' & _).
  rewrite E0, E0' in F0. rewrite E1, E1' in F1.
  rewrite E2, E2' in F2. rewrite E3, E3' in F3.
  injection F0 as F0. injection F1 as F1. injection F2 as F2. injection F3 as F3.
  apply (extract_feature_ranks b b' _ _ _ _ _ _ _ _ Hb Hb') in F0, F1, F2, F3.
  clear Hf Hb Hb' E0 E1 E2 E3 E0' E1' E2' E3'.
  do 16 (destruct b as [|? b]; [discriminate Hl|]).
  destruct b; [|discriminate Hl].
  do 16 (destruct b' as [|? b']; [discriminate Hl'|]).
  destruct b'; [|discriminate Hl'].
  unfold at_pos in F0, F1, F2, F3. vm_compute in F0, F1, F2, F3.
  destruct F0 as (? & ? & ? & ?). destruct F1 as (? & ? & ? & ?).
  destruct F2 as (? & ? & ? & ?). destruct F3 as (? & ? & ? & ?).
  subst. reflexivity.
Qed.

Lemma row_features_determine_board_witness : one_tile = one_tile.
Proof.
  apply (row_features_determine_board one_tile one_tile).
  - reflexivity.
  - reflexivity.
  - apply ranks_below_one_tile. lia.
  - apply ranks_below_one_tile. lia.
  - intros i _. reflexivity.
Defined.

(** ** The value of a board and the writes of [adjust_value] *)

(** A lookup of [net_get] reads one entry. *)
Lemma net_get_entry (net : list weight) (i : nat) (f : Z) :
  net_get net i f
  = if f <? 0 then Err OutOfBounds
    else of_option OutOfBounds (entry net i (Z.to_nat f)).
Proof.
  unfold net_get, entry.
  destruct (net !! i) as [w|]; cbn [of_option rbind]; [reflexivity|].
  destruct (f <? 0); reflexivity.
Qed.

Lemma net_get_same_entry (net net' : list weight) (i : nat) (f : Z) :
  (0 <= f -> entry net i (Z.to_nat f) = entry net' i (Z.to_nat f)) ->
  net_get net i f = net_get net' i f.
Proof.
  intros H. rewrite !net_get_entry.
  destruct (Z.ltb_spec f 0) as [|Hf]; [reflexivity|].
  rewrite (H Hf). reflexivity.
Qed.

(** [estimate_value] reads the tables at the eight features of the board and
    nowhere else. *)
Lemma estimate_value_reads_features (net net' : list weight) (b : board) :
  (forall i f, feature_at b i = Some f -> 0 <= f ->
               entry net i (Z.to_nat f) = entry net' i (Z.to_nat f)) ->
  estimate_value net b = estimate_value net' b.
Proof.
  intros H. unfold estimate_value.
  destruct (feature_at_cases b) as (F0 & F1 & F2 & F3 & F4 & F5 & F6 & F7 & _).
  rewrite (net_get_same_entry net net' 0 (extract_feature b 0 1 2 3)
             (H 0%nat _ F0)).
  rewrite (net_get_same_entry net net' 1 (extract_feature b 4 5 6 7)
             (H 1%nat _ F1)).
  rewrite (net_get_same_entry net net' 2 (extract_feature b 8 9 10 11)
             (H 2%nat _ F2)).
  rewrite (net_get_same_entry net net' 3 (extract_feature b 12 13 14 15)
             (H 3%nat _ F3)).
  rewrite (net_get_same_entry net net' 4 (extract_feature b 0 4 8 12)
             (H 4%nat _ F4)).
  rewrite (net_get_same_entry net net' 5 (extract_feature b 1 5 9 13)
             (H 5%nat _ F5)).
  rewrite (net_get_same_entry net net' 6 (extract_feature b 2 6 10 14)
             (H 6%nat _ F6)).
  rewrite (net_get_same_entry net net' 7 (extract_feature b 3 7 11 15)
             (H 7%nat _ F7)).
  reflexivity.
Qed.

Lemma adjust_value_other_boards (alpha target : float)
    (net net' : list weight) (b b' : board) :
  adjust_value alpha net b target = Ok net' ->
  (forall i, (i < 8)%nat -> feature_at b' i <> feature_at b i) ->
  estimate_value net' b' = estimate_value net b'.
Proof.
  intros Hadj Hdiff.
  destruct (adjust_value_inv alpha net net' b target Hadj) as (current & _ & _ & He).
  apply estimate_value_reads_features. intros i f Hf Hpos.
  rewrite He. rewrite Z2Nat.id by exact Hpos.
  apply decide_False. intros E.
  assert (Hi : (i < 8)%nat).
  { unfold feature_at in Hf.
    destruct (patterns !! i) eqn:Hp; [|discriminate].
    apply lookup_lt_Some in Hp. exact Hp. }
  apply (Hdiff i Hi). congruence.
Qed.

(** X13.  An adjustment for a board is local to its features: it returns on
    tables of the assumed shape, and a board that shares no feature with the
    adjusted one, table by table, keeps its estimate. *)
Theorem adjust_value_is_local (alpha target : float) (net : list weight)
    (b b' : board) :
  ranks_below 25 b -> wf_net net ->
  (forall i, (i < 8)%nat -> feature_at b' i <> feature_at b i) ->
  exists net',
    adjust_value alpha net b target = Ok net' /\
    estimate_value net' b' = estimate_value net b'.
Proof.
  intros Hb Hnet Hdiff.
  destruct (adjust_value_ok alpha net b target Hb Hnet) as (net' & E & _).
  exists net'. split; [exact E|].
  exact (adjust_value_other_boards alpha target net net' b b' E Hdiff).
Qed.

Lemma adjust_value_is_local_witness :
  exists net',
    adjust_value (F32.of_int 1) (const_net F32.zero) empty_board (F32.of_int 4) = Ok net' /\
    estimate_value net' (replicate 16 1) = estimate_value (const_net F32.zero) (replicate 16 1).
Proof.
  apply (adjust_value_is_local (F32.of_int 1) (F32.of_int 4) (const_net F32.zero)
           empty_board (replicate 16 1)).
  - unfold ranks_below, empty_board. apply Forall_replicate. lia.
  - apply wf_const_net.
  - intros i Hi.
    destruct i as [|[|[|[|[|[|[|[|i]]]]]]]]; try lia; vm_compute; discriminate.
Defined.

(** ** What an episode keeps *)

Lemma net_add_shape (net net' : list weight) (i : nat) (f : Z) (adjust : float) :
  net_add net i f adjust = Ok net' -> shape net' = shape net.
Proof.
  intros H. destruct (net_add_inv _ _ _ _ _ H) as (w & x & Hw & _ & _ & ->).
  unfold shape. rewrite list_fmap_insert, length_insert.
  apply list_insert_id. rewrite list_lookup_fmap, Hw. reflexivity.
Qed.

Lemma adjust_value_shape (alpha target : float) (net net' : list weight)
    (b : board) :
  adjust_value alpha net b target = Ok net' -> shape net' = shape net.
Proof.
  unfold adjust_value. intros H.
  apply rbind_ok_inv in H. destruct H as (current & _ & H).
  apply rbind_ok_inv in H. destruct H as (n0 & H0 & H).
  apply rbind_ok_inv in H. destruct H as (n1 & H1 & H).
  apply rbind_ok_inv in H. destruct H as (n2 & H2 & H).
  apply rbind_ok_inv in H. destruct H as (n3 & H3 & H).
  apply rbind_ok_inv in H. destruct H as (n4 & H4 & H).
  apply rbind_ok_inv in H. destruct H as (n5 & H5 & H).
  apply rbind_ok_inv in H. destruct H as (n6 & H6 & H).
  apply rbind_ok_inv in H. destruct H as (n7 & H7 & H).
  injection H as <-.
  rewrite (net_add_shape _ _ _ _ _ H7), (net_add_shape _ _ _ _ _ H6),
    (net_add_shape _ _ _ _ _ H5), (net_add_shape _ _ _ _ _ H4),
    (net_add_shape _ _ _ _ _ H3), (net_add_shape _ _ _ _ _ H2),
    (net_add_shape _ _ _ _ _ H1), (net_add_shape _ _ _ _ _ H0).
  reflexivity.
Qed.

Lemma td_loop_shape (alpha : float) (hist : list step) (k : nat) :
  forall net net',
    td_loop alpha hist net k = Ok net' -> shape net' = shape net.
Proof.
  induction k as [|k IH]; intros net0 net' H.
  - injection H as <-. reflexivity.
  - cbn [td_loop] in H.
    apply rbind_ok_inv in H. destruct H as (s & _ & H).
    apply rbind_ok_inv in H. destruct H as (s1 & _ & H).
    apply rbind_ok_inv in H. destruct H as (v & _ & H).
    apply rbind_ok_inv in H. destruct H as (net1 & H1 & H).
    rewrite (IH _ _ H). exact (adjust_value_shape _ _ _ _ _ H1).
Qed.

Lemma wf_net_shape (net net' : list weight) :
  shape net' = shape net -> wf_net net -> wf_net net'.
Proof.
  unfold wf_net, shape. intros E [Hl Hall]. split.
  - rewrite <- (length_fmap length net'), E, length_fmap. exact Hl.
  - apply (Forall_fmap length (fun n => Z.of_nat n = table_size)).
    rewrite E. apply Forall_fmap. exact Hall.
Qed.

Lemma close_episode_changes (p p' : player) :
  close_episode p = Ok p' ->
  meta p' = meta p /\ alpha p' = alpha p /\ history p' = history p /\
  shape (net p') = shape (net p).
Proof.
  unfold close_episode.
  destruct (history p) as [|s0 rest] eqn:Hh.
  - intros [= <-]. auto.
  - destruct (F32.eq (alpha p) (F32.of_int 0)).
    + intros [= <-]. auto.
    + intros H.
      apply rbind_ok_inv in H. destruct H as (last & _ & H).
      apply rbind_ok_inv in H. destruct H as (net1 & H1 & H).
      apply rbind_ok_inv in H. destruct H as (net2 & H2 & H).
      injection H as <-. cbn [meta alpha history net set_net].
      repeat split; [exact Hh|].
      rewrite (td_loop_shape _ _ _ _ _ H2).
      exact (adjust_value_shape _ _ _ _ _ H1).
Qed.



Lemma close_episode_ok (p : player) :
  episode_ready p -> Z.of_nat (length (history p)) < 2 ^ 31 ->
  is_ok (close_episode p).
Proof.
  intros [Hnet Hhist] Hlen.
  destruct (history p) as [|s0 rest] eqn:Hh.
  - exists p. unfold close_episode. rewrite Hh. reflexivity.
  - destruct (F32.eq (alpha p) (F32.of_int 0)) eqn:Ha.
    + exists p. unfold close_episode. rewrite Hh, Ha. reflexivity.
    + rewrite <- Hh in *.
      rewrite (close_episode_refines p) by (rewrite ?Hh; congruence || assumption).
      apply close_episode_spec_ok; assumption.
Qed.

(** X15.  A player with the 8 tables of 25^4 entries and a history of boards
    with ranks below 25 stays so through an episode: [open_episode] and
    [close_episode] keep this, and so does [take_action] whenever
    [board::slide] gives boards with ranks below 25; [close_episode] then
    returns (for a history that an [int] can count). *)
Theorem episode_ready_kept (slide : board -> Z -> Z * board) (p : player) :
  episode_ready p ->
  episode_ready (open_episode p) /\
  (forall before a p',
     (forall op, ranks_below 25 (snd (slide before op))) ->
     take_action slide p before = Ok (a, p') -> episode_ready p') /\
  (forall p', close_episode p = Ok p' -> episode_ready p') /\
  (Z.of_nat (length (history p)) < 2 ^ 31 -> is_ok (close_episode p)).
Proof.
  intros Hp. pose proof Hp as [Hnet Hhist]. split; [|split; [|split]].
  - split; [exact Hnet | apply List.Forall_nil].
  - intros before a p' Hslide H.
    destruct (take_action_sound slide p p' before a H)
      as [[_ ->] | (op & r & b' & _ & E & _ & _ & ->)]; [exact Hp|].
    split; [exact Hnet|].
    cbn [history set_history]. unfold boards_below.
    apply Forall_app. split; [exact Hhist|].
    apply List.Forall_cons; [|apply List.Forall_nil].
    cbn [after]. specialize (Hslide op). rewrite E in Hslide. exact Hslide.
  - intros p' H.
    destruct (close_episode_changes p p' H) as (_ & _ & Hh & Hs).
    split; [exact (wf_net_shape _ _ Hs Hnet) | rewrite Hh; exact Hhist].
  - intros Hlen. exact (close_episode_ok p Hp Hlen).
Qed.

Lemma ready_fresh : episode_ready (Player ∅ (const_net F32.zero) F32.zero []).
Proof.
  split; [apply wf_const_net | apply List.Forall_nil].
Qed.

Lemma episode_ready_kept_witness :
  let slide := slide_model framework_dirs in
  let p := Player ∅ (const_net F32.zero) F32.zero [] in
  episode_ready (open_episode p) /\
  (forall before a p',
     (forall op, ranks_below 25 (snd (slide before op))) ->
     take_action slide p before = Ok (a, p') -> episode_ready p') /\
  (forall p', close_episode p = Ok p' -> episode_ready p') /\
  (Z.of_nat (length (history p)) < 2 ^ 31 -> is_ok (close_episode p)).
Proof.
  intros slide p. apply (episode_ready_kept slide p). exact ready_fresh.
Defined.

(** ** The faults of [take_action] *)

Lemma consider_faults (acc : best) (op r : Z) (value : float) (b' : board)
    (e : error) :
  consider acc op r value b' = Err e -> e = BadConversion \/ e = Overflow.
Proof.
  unfold consider, int_add.
  destruct (in_int (best_reward acc + best_value acc)); cbn [rbind].
  - destruct (F32.gt _ _); [|discriminate].
    unfold F32.to_int. destruct (F32.trunc value) as [z|]; cbn [rbind].
    + destruct (in_int z); cbn [rbind]; [discriminate|].
      intros [= <-]. left. reflexivity.
    + intros [= <-]. left. reflexivity.
  - intros [= <-]. right. reflexivity.
Qed.

Lemma try_op_faults (slide : board -> Z -> Z * board) (net : list weight)
    (before : board) (acc : best) (op : Z) (e : error) :
  wf_net net -> ranks_below 25 (snd (slide before op)) ->
  try_op slide net before acc op = Err e -> e = BadConversion \/ e = Overflow.
Proof.
  intros Hnet Hb. unfold try_op.
  destruct (slide before op) as [r b']. cbn [snd] in Hb.
  destruct (r =? -1); [discriminate|].
  destruct (estimate_value_ok net b' Hb Hnet) as [value ->]. cbn [rbind].
  apply consider_faults.
Qed.

(** X16.  On the 8 tables of 25^4 entries, when [board::slide] gives boards
    with ranks below 25, [take_action] reads no table outside its bounds: it
    returns, or the behaviour is undefined by the conversion of a value to
    the [int] [best_value] or by the [int] sum [best_reward + best_value]. *)
Theorem take_action_faults (slide : board -> Z -> Z * board) (p : player)
    (before : board) :
  wf_net (net p) ->
  (forall op, ranks_below 25 (snd (slide before op))) ->
  is_ok (take_action slide p before) \/
  take_action slide p before = Err BadConversion \/
  take_action slide p before = Err Overflow.
Proof.
  intros Hnet Hslide. unfold take_action.
  assert (H : forall ops acc,
             is_ok (for_ops slide (net p) before acc ops) \/
             for_ops slide (net p) before acc ops = Err BadConversion \/
             for_ops slide (net p) before acc ops = Err Overflow).
  { induction ops as [|op ops IH]; intros acc; cbn [for_ops].
    - left. eexists. reflexivity.
    - destruct (try_op slide (net p) before acc op) as [acc'|e] eqn:E;
        cbn [rbind]; [apply IH|].
      right.
      destruct (try_op_faults slide (net p) before acc op e Hnet (Hslide op) E)
        as [-> | ->]; auto. }
  destruct (H [0; 1; 2; 3] best_init) as [[b ->] | [-> | ->]]; cbn [rbind]; auto.
  left. eexists. reflexivity.
Qed.

Lemma take_action_faults_witness :
  let slide := slide_model framework_dirs in
  let p := Player ∅ (const_net F32.zero) F32.zero [] in
  is_ok (take_action slide p one_tile) \/
  take_action slide p one_tile = Err BadConversion \/
  take_action slide p one_tile = Err Overflow.
Proof.
  intros slide p. apply (take_action_faults slide p one_tile).
  - apply wf_const_net.
  - intros op. destruct (slide_model_one_tile framework_dirs op) as (b' & E & Hb).
    unfold slide. rewrite E. exact Hb.
Defined.

(** X17.  When [take_action] returns, it has changed nothing but the
    history, by at most one step: it returns [action::slide(-1)] and the
    player as it was, or the slide of a direction among 0..3 that is legal on
    the board, with the reward and the board of this very move appended to
    the history. *)
Theorem take_action_records_its_move (slide : board -> Z -> Z * board)
    (p p' : player) (before : board) (a : action) :
  take_action slide p before = Ok (a, p') ->
  meta p' = meta p /\ net p' = net p /\ alpha p' = alpha p /\
  ((a = Slide (-1) /\ history p' = history p) \/
   (exists op r b',
      In op [0; 1; 2; 3] /\ slide before op = (r, b') /\
      legal slide before op = true /\
      a = Slide op /\ history p' = history p ++ [Step r b'])).
Proof.
  intros H.
  destruct (take_action_sound slide p p' before a H)
    as [[-> ->] | (op & r & b' & Hin & E & Hr & -> & ->)].
  - repeat split. left. auto.
  - repeat split. right. exists op, r, b'. repeat split; try assumption.
    unfold legal. rewrite E. cbn [fst].
    destruct (Z.eqb_spec r (-1)); [contradiction | reflexivity].
Qed.

Lemma take_action_records_its_move_witness :
  let slide := slide_model framework_dirs in
  let p := Player ∅ (const_net sixteenth) F32.zero [] in
  let b3 := [0; 0; 0; 0; 1; 0; 0; 0; 0; 0; 0; 0; 0; 0; 0; 0] in
  let p' := set_history p (history p ++ [Step 0 b3]) in
  meta p' = meta p /\ net p' = net p /\ alpha p' = alpha p /\
  ((Slide 3 = Slide (-1) /\ history p' = history p) \/
   (exists op r b',
      In op [0; 1; 2; 3] /\ slide one_tile op = (r, b') /\
      legal slide one_tile op = true /\
      Slide 3 = Slide op /\ history p' = history p ++ [Step r b'])).
Proof.
  intros slide p b3 p'.
  apply (take_action_records_its_move slide p p' one_tile (Slide 3)).
  apply (take_action_equal_scores slide p one_tile
           [0; 1; 0; 0; 0; 0; 0; 0; 0; 0; 0; 0; 0; 0; 0; 0]
           [0; 0; 0; 0; 0; 0; 0; 1; 0; 0; 0; 0; 0; 0; 0; 0]
           [0; 0; 0; 0; 0; 0; 0; 0; 0; 0; 0; 0; 0; 1; 0; 0]
           b3);
    try reflexivity;
    unfold ranks_below; repeat (apply List.Forall_cons; [lia|]);
    apply List.Forall_nil.
Defined.

(** X18.  Without a legal move among the four directions, [take_action]
    returns [action::slide(-1)] and leaves the player as it was; it reads no
    table, so this holds whatever the tables are, also without any. *)
Theorem take_action_without_legal_move (slide : board -> Z -> Z * board)
    (p : player) (before : board) :
  (forall op, In op [0; 1; 2; 3] -> legal slide before op = false) ->
  take_action slide p before = Ok (Slide (-1), p).
Proof.
  exact (take_action_no_legal_move slide p before).
Qed.

Lemma take_action_without_legal_move_witness :
  take_action (fun b _ => (-1, b)) (Player ∅ [] F32.zero []) empty_board
  = Ok (Slide (-1), Player ∅ [] F32.zero []).
Proof.
  apply (take_action_without_legal_move (fun b _ => (-1, b))
           (Player ∅ [] F32.zero []) empty_board).
  intros op _. reflexivity.
Defined.

(** ** The dummy player *)

Lemma dummy_scan_spec (slide : board -> Z -> Z * board) (before : board)
    (opcode : list Z) :
  match dummy_scan slide before opcode with
  | Slide op => In op opcode /\ legal slide before op = true
  | NoAction => forall op, In op opcode -> legal slide before op = false
  | Place _ _ => False
  end.
Proof.
  induction opcode as [|op opcode IH]; cbn [dummy_scan].
  - intros op [].
  - destruct (slide before op) as [r b'] eqn:E.
    assert (L : legal slide before op = negb (r =? -1))
      by (unfold legal; rewrite E; reflexivity).
    destruct (negb (r =? -1)) eqn:Hr.
    + split; [left; reflexivity | exact L].
    + destruct (dummy_scan slide before opcode) as [op'| |].
      * destruct IH as [Hin Hl]. split; [right; exact Hin | exact Hl].
      * exact IH.
      * intros op' [<- | Hin]; [exact L | exact (IH op' Hin)].
Qed.

(** X19.  [dummy_player::take_action] returns the slide of a legal direction
    among 0..3 whenever one exists, and the default action exactly when none
    of the four is legal; it never returns [action::slide(-1)]. *)
Theorem dummy_take_action_legal (slide : board -> Z -> Z * board)
    (shuffled : list Z) (before : board) :
  Permutation opcode_init shuffled ->
  match fst (dummy_take_action slide shuffled before) with
  | Slide op => In op [0; 1; 2; 3] /\ legal slide before op = true
  | NoAction => forall op, In op [0; 1; 2; 3] -> legal slide before op = false
  | Place _ _ => False
  end.
Proof.
  intros Hperm. cbn [fst dummy_take_action].
  pose proof (dummy_scan_spec slide before shuffled) as H.
  destruct (dummy_scan slide before shuffled) as [op| |].
  - destruct H as [Hin Hl]. split; [|exact Hl].
    eapply Permutation_in; [symmetry; exact Hperm | exact Hin].
  - exact H.
  - intros op Hin. apply H.
    eapply Permutation_in; [exact Hperm | exact Hin].
Qed.

Lemma dummy_take_action_legal_witness :
  match fst (dummy_take_action (slide_model framework_dirs) [2; 0; 3; 1] one_tile) with
  | Slide op => In op [0; 1; 2; 3] /\ legal (slide_model framework_dirs) one_tile op = true
  | NoAction =>
      forall op, In op [0; 1; 2; 3] -> legal (slide_model framework_dirs) one_tile op = false
  | Place _ _ => False
  end.
Proof.
  apply (dummy_take_action_legal (slide_model framework_dirs) [2; 0; 3; 1] one_tile).
  apply (Permutation_trans (l' := [0; 2; 1; 3])).
  - apply perm_skip. apply perm_swap.
  - apply (Permutation_trans (l' := [2; 0; 1; 3])).
    + apply perm_swap.
    + apply perm_skip. apply perm_skip. apply perm_swap.
Defined.

(** ** Saving and loading the tables *)

Lemma byte_of_value (z : Z) : Z.of_N (Byte.to_N (byte_of z)) = z mod 2 ^ 8.
Proof.
  unfold byte_of.
  pose proof (Z.mod_pos_bound z (2 ^ 8) ltac:(lia)) as Hm.
  destruct (Byte.of_N (Z.to_N (z mod 2 ^ 8))) as [b|] eqn:E.
  - apply Byte.to_of_N in E. rewrite E. apply Z2N.id. lia.
  - apply Byte.of_N_None_iff in E. lia.
Qed.

(** The four bytes written for a [uint32_t] are read back as its value. *)
Lemma read_u32_bytes (z : Z) (rest : list byte) :
  0 <= z < 2 ^ 32 -> read_u32 (bytes_of_u32 z ++ rest) = Some (z, rest).
Proof.
  intros Hz. unfold bytes_of_u32, read_u32. cbn [app].
  f_equal. f_equal. unfold le32. rewrite !byte_of_value.
  change (2 ^ 8) with 256. change (2 ^ 16) with 65536.
  change (2 ^ 24) with 16777216. change (2 ^ 32) with 4294967296 in Hz.
  Z.div_mod_to_equations. lia.
Qed.

Lemma length_resize (size : nat) (net : list weight) :
  length (resize size net) = size.
Proof.
  unfold resize. rewrite length_app, length_take, length_replicate. lia.
Qed.

(** Reading back the tables that were written, over any tables of the same
    number. *)
Lemma read_tables_written
    (read_weight : weight -> list byte -> weight * list byte)
    (write_weight : weight -> list byte) (ws : list weight) :
  Forall (fun w => forall w0 rest,
            read_weight w0 (write_weight w ++ rest) = (w, rest)) ws ->
  forall olds rest,
    length olds = length ws ->
    read_tables read_weight olds (concat (map write_weight ws) ++ rest) = ws.
Proof.
  induction 1 as [|w ws Hw _ IH]; intros olds rest Hlen.
  - destruct olds; [reflexivity | discriminate].
  - destruct olds as [|w0 olds]; [discriminate|].
    cbn [map concat read_tables]. rewrite <- app_assoc, Hw.
    f_equal. apply IH. cbn [length] in Hlen. lia.
Qed.

(** X20.  Round trip of the weight file: after [save_weights] to a path that
    can be written, [load_weights] from this path gives any player the
    tables that were saved, whatever tables it had; the numbers of tables
    fits a [uint32_t], and a table is read back as it was written by the
    operators of [weight]. *)
Theorem load_after_save
    (read_weight : weight -> list byte -> weight * list byte)
    (write_weight : weight -> list byte)
    (fs : filesys) (p q : player) (path : string) :
  can_write fs path = true ->
  Z.of_nat (length (net p)) < 2 ^ 32 ->
  Forall (fun w => forall w0 rest,
            read_weight w0 (write_weight w ++ rest) = (w, rest)) (net p) ->
  exists fs',
    save_weights write_weight fs p path = Ok fs' /\
    load_weights read_weight fs' q path = Ok (set_net q (net p)).
Proof.
  intros Hw Hlen Hcodec. unfold save_weights. rewrite Hw. cbn [negb].
  eexists. split; [reflexivity|].
  unfold load_weights. cbn [files]. rewrite lookup_insert_eq.
  unfold wrap32. rewrite Z.mod_small by lia.
  rewrite read_u32_bytes by lia. cbn [of_option rbind].
  rewrite Nat2Z.id.
  rewrite <- (app_nil_r (concat (map write_weight (net p)))).
  rewrite (read_tables_written read_weight write_weight (net p) Hcodec);
    [reflexivity|].
  apply length_resize.
Qed.

Lemma load_after_save_witness :
  let read_weight := fun (w0 : weight) (bs : list byte) =>
                       match bs with
                       | _ :: rest => (@nil float, rest)
                       | [] => (w0, [])
                       end in
  let write_weight := fun (_ : weight) => ["000"%byte] in
  let fs := Filesys ∅ (fun _ => true) in
  let p := Player ∅ [[]; []] F32.zero [] in
  let q := Player ∅ (const_net F32.zero) F32.zero [] in
  exists fs',
    save_weights write_weight fs p "w.bin" = Ok fs' /\
    load_weights read_weight fs' q "w.bin" = Ok (set_net q (net p)).
Proof.
  intros read_weight write_weight fs p q.
  apply (load_after_save read_weight write_weight fs p q "w.bin").
  - reflexivity.
  - vm_compute. reflexivity.
  - repeat (apply List.Forall_cons; [intros w0 rest; reflexivity|]).
    apply List.Forall_nil.
Defined.

Lemma player_new_loads
    (read_weight : weight -> list byte -> weight * list byte)
    (write_weight : weight -> list byte)
    (stod : string -> option float)
    (fs : filesys) (args path : string) (ws : list weight) :
  agent_new (String.append "name=dummy role=player " args) !! "load"%string = Some path ->
  agent_new (String.append "name=dummy role=player " args) !! "alpha"%string = None ->
  files fs !! path
  = Some (bytes_of_u32 (Z.of_nat (length ws)) ++ concat (map write_weight ws)) ->
  Z.of_nat (length ws) < 2 ^ 32 ->
  Forall (fun w => forall w0 rest,
            read_weight w0 (write_weight w ++ rest) = (w, rest)) ws ->
  player_new read_weight stod fs args
  = Ok (Player (agent_new (String.append "name=dummy role=player " args)) ws
          (F32.of_int 0) []).
Proof.
  intros Hload Halpha Hfile Hlen Hcodec.
  assert (L : forall p0,
             load_weights read_weight fs p0 path = Ok (set_net p0 ws)).
  { intros p0. unfold load_weights. rewrite Hfile.
    rewrite read_u32_bytes by lia. cbn [of_option rbind].
    rewrite Nat2Z.id.
    rewrite <- (app_nil_r (concat (map write_weight ws))).
    rewrite (read_tables_written read_weight write_weight ws Hcodec);
      [reflexivity|].
    apply length_resize. }
  unfold player_new. rewrite Hload, Halpha.
  destruct (agent_new _ !! "init"%string); cbn [rbind]; rewrite L; reflexivity.
Qed.

(** X21.  A player constructed with a [load] key (and no [alpha] key) on a
    file that holds saved tables has exactly these tables, also when an
    [init] key is given as well: what is loaded replaces what [init_weights]
    made. *)
Theorem player_new_loads_tables
    (read_weight : weight -> list byte -> weight * list byte)
    (write_weight : weight -> list byte)
    (stod : string -> option float)
    (fs : filesys) (args path : string) (ws : list weight) :
  agent_new (String.append "name=dummy role=player " args) !! "load"%string = Some path ->
  agent_new (String.append "name=dummy role=player " args) !! "alpha"%string = None ->
  files fs !! path
  = Some (bytes_of_u32 (Z.of_nat (length ws)) ++ concat (map write_weight ws)) ->
  Z.of_nat (length ws) < 2 ^ 32 ->
  Forall (fun w => forall w0 rest,
            read_weight w0 (write_weight w ++ rest) = (w, rest)) ws ->
  player_new read_weight stod fs args
  = Ok (Player (agent_new (String.append "name=dummy role=player " args)) ws
          (F32.of_int 0) []).
Proof.
  exact (player_new_loads read_weight write_weight stod fs args path ws).
Qed.

Lemma player_new_loads_tables_witness :
  let read_weight := fun (w0 : weight) (bs : list byte) =>
                       match bs with
                       | _ :: rest => (@nil float, rest)
                       | [] => (w0, [])
                       end in
  let fs := Filesys {[ "w.bin"%string := ["002"; "000"; "000"; "000"; "000"; "000"]%byte ]}
              (fun _ => false) in
  player_new read_weight (fun _ => None) fs "init load=w.bin"
  = Ok (Player (agent_new (String.append "name=dummy role=player " "init load=w.bin"))
          [[]; []] (F32.of_int 0) []).
Proof.
  intros read_weight fs.
  apply (player_new_loads_tables read_weight (fun _ => ["000"%byte]) (fun _ => None)
           fs "init load=w.bin" "w.bin" [[]; []]).
  - vm_compute. reflexivity.
  - vm_compute. reflexivity.
  - vm_compute. reflexivity.
  - vm_compute. reflexivity.
  - repeat (apply List.Forall_cons; [intros w0 rest; reflexivity|]).
    apply List.Forall_nil.
Defined.

Lemma last_value_app (key : string) (l1 l2 : list string) :
  last_value key (l1 ++ l2)
  = match last_value key l2 with
    | Some v => Some v
    | None => last_value key l1
    end.
Proof.
  induction l2 as [|t ts IH] using rev_ind.
  - rewrite app_nil_r. reflexivity.
  - rewrite app_assoc, !last_value_snoc.
    destruct (String.eqb (fst (key_value t)) key); [reflexivity | exact IH].
Qed.

(** X22.  A player whose arguments give no [name] and no [role] token is
    named ["dummy"] with the role ["player"]: the tokens that the constructor
    of [player] puts first win over those of [agent], and tokens of the
    arguments win over both. *)
Theorem player_name_and_role
    (read_weight : weight -> list byte -> weight * list byte)
    (stod : string -> option float) (fs : filesys) (args : string) (p : player) :
  player_new read_weight stod fs args = Ok p ->
  name (meta p)
  = Ok (match last_value "name" (tokens args) with Some v => v | None => "dummy"%string end) /\
  role (meta p)
  = Ok (match last_value "role" (tokens args) with Some v => v | None => "player"%string end).
Proof.
  intros Hnew.
  destruct (player_new_members _ _ _ _ _ Hnew) as (-> & _ & _).
  assert (T : tokens (String.append "name=dummy role=player " args)
              = ["name=dummy"; "role=player"]%string ++ tokens args).
  { change (String.append "name=dummy role=player " args)
      with (String.append "name=dummy"
              (String " " (String.append "role=player" (String " " args)))).
    rewrite !tokens_app_space. reflexivity. }
  unfold name, role, property. rewrite !agent_new_last_value, T, !last_value_app.
  split.
  - destruct (last_value "name" (tokens args)); reflexivity.
  - destruct (last_value "role" (tokens args)); reflexivity.
Qed.

Lemma player_name_and_role_witness :
  let p := Player (agent_new "name=dummy role=player name=td") [] (F32.of_int 0) [] in
  name (meta p)
  = Ok (match last_value "name" (tokens "name=td") with Some v => v | None => "dummy"%string end) /\
  role (meta p)
  = Ok (match last_value "role" (tokens "name=td") with Some v => v | None => "player"%string end).
Proof.
  intros p.
  apply (player_name_and_role (fun w bs => (w, bs)) (fun _ => None)
           (Filesys ∅ (fun _ => false)) "name=td" p).
  vm_compute. reflexivity.
Defined.


